(** * The in-process notification bus of [routers/notifications.py]

    A shallow embedding of [NotificationEvent], [EventStore] and the
    server-sent-events generator [stream_notifications.event_generator],
    followed by the properties of the event log, the subscription registry,
    the fan-out and the streaming loop. *)

From Stdlib Require Import ZArith String Ascii.
From stdpp Require Import gmap strings list fin_maps pretty.

#[local] Set Warnings "-register-all".

(** ** Python primitives the module relies on *)

Module Py.

(** The exception classes that can reach the module's handlers.
    [CancelledError] and [GeneratorExit] derive from [BaseException] only,
    the others from [Exception]. *)
Inductive exn :=
| KeyError | ValueError | TypeError | TimeoutError | ConnectionError
| CancelledError | GeneratorExit.

Definition is_Exception (e : exn) : bool :=
  match e with
  | CancelledError | GeneratorExit => false
  | _ => true
  end.

Inductive result (A : Type) :=
| Ok (a : A)
| Raise (e : exn).
Arguments Ok {A} a.
Arguments Raise {A} e.

(** [l[start:]]: a negative start counts from the end, and the adjusted
    start is clipped to [0, len(l)]. *)
Definition slice_from {A} (start : Z) (l : list A) : list A :=
  let n := Z.of_nat (length l) in
  let i := if (start <? 0)%Z then Z.max 0 (start + n) else Z.min start n in
  drop (Z.to_nat i) l.

(** [l.remove(x)]: drops the first occurrence, [ValueError] when there is
    none. *)
Fixpoint list_remove {A} `{EqDecision A} (x : A) (l : list A)
  : result (list A) :=
  match l with
  | [] => Raise ValueError
  | y :: l' =>
      if decide (x = y) then Ok l'
      else match list_remove x l' with
           | Ok r => Ok (y :: r)
           | Raise e => Raise e
           end
  end.

(** Truth value of an optional string: [None] and [""] are falsy. *)
Definition truthy (x : option string) : bool :=
  match x with
  | None => false
  | Some s => negb (String.eqb s "")
  end.

(** [x or y] for an optional string [x] and a string [y]. *)
Definition or_ (x : option string) (y : string) : string :=
  match x with
  | Some s => if truthy x then s else y
  | None => y
  end.

(** Values a payload or a streamed JSON document is built from; [VOpaque]
    stands for an object [json.dumps] has no encoding for. *)
Inductive value :=
| VNone
| VBool (b : bool)
| VInt (z : Z)
| VStr (s : string)
| VList (l : list value)
| VDict (kv : list (string * value))
| VOpaque.

Definition of_option (x : option string) : value :=
  match x with
  | Some s => VStr s
  | None => VNone
  end.

Fixpoint serializable (v : value) : bool :=
  match v with
  | VOpaque => false
  | VList l => forallb serializable l
  | VDict kv => forallb (fun p => match p with (_, x) => serializable x end) kv
  | _ => true
  end.

End Py.

(** ** Events *)

Inductive NotificationType :=
| MESSAGE_RECEIVED
| CONVERSATION_UPDATED
| USER_JOINED
| USER_LEFT
| SYSTEM_NOTIFICATION.

(** The member's name. *)
Definition NotificationType_name (t : NotificationType) : string :=
  match t with
  | MESSAGE_RECEIVED => "MESSAGE_RECEIVED"
  | CONVERSATION_UPDATED => "CONVERSATION_UPDATED"
  | USER_JOINED => "USER_JOINED"
  | USER_LEFT => "USER_LEFT"
  | SYSTEM_NOTIFICATION => "SYSTEM_NOTIFICATION"
  end.

(** What an f-string prints for a member: the class and the member's name.
    The enumeration mixes in [str], but formatting goes through
    [Enum.__str__] on the interpreters that can load the package (its
    multi-line f-string fields need 3.12). *)
Definition NotificationType_str (t : NotificationType) : string :=
  "NotificationType." +:+ NotificationType_name t.

(** The member's value, which is what [json.dumps] writes for it. *)
Definition NotificationType_value (t : NotificationType) : string :=
  match t with
  | MESSAGE_RECEIVED => "message_received"
  | CONVERSATION_UPDATED => "conversation_updated"
  | USER_JOINED => "user_joined"
  | USER_LEFT => "user_left"
  | SYSTEM_NOTIFICATION => "system_notification"
  end.

Record NotificationEvent := {
  event_type : NotificationType;
  data : Py.value;
  user_id : option string;
  conversation_id : option string;
  timestamp : string;
  event_id : string
}.

(** [NotificationEvent.__init__]. The constructor reads the clock twice:
    [now_iso] is [datetime.utcnow().isoformat()] of the first reading and
    [now_ms] is [int(datetime.utcnow().timestamp() * 1000)] of the second. *)
Definition NotificationEvent_init (event_type : NotificationType)
    (data : Py.value) (user_id conversation_id : option string)
    (now_iso : string) (now_ms : Z) : NotificationEvent :=
  {| event_type := event_type;
     data := data;
     user_id := user_id;
     conversation_id := conversation_id;
     timestamp := now_iso;
     event_id := NotificationType_str event_type +:+ "_" +:+ pretty now_ms |}.

Definition to_dict (e : NotificationEvent) : Py.value :=
  Py.VDict [ ("event_id", Py.VStr (event_id e));
             ("event_type", Py.VStr (NotificationType_value (event_type e)));
             ("data", data e);
             ("user_id", Py.of_option (user_id e));
             ("conversation_id", Py.of_option (conversation_id e));
             ("timestamp", Py.VStr (timestamp e)) ].

(** ** The store, the queues it references, and the effects of its methods *)

(** [asyncio.Queue]: [maxsize] and the buffered items, oldest first. *)
Record Queue := {
  maxsize : Z;
  items : list NotificationEvent
}.

Definition Queue_init (maxsize : Z) : Queue :=
  {| maxsize := maxsize; items := [] |}.

(** [Queue.full] *)
Definition full (q : Queue) : bool :=
  if (maxsize q <=? 0)%Z then false
  else (maxsize q <=? Z.of_nat (length (items q)))%Z.

(** [Queue.put_nowait] on a queue that is not full. *)
Definition put_nowait (e : NotificationEvent) (q : Queue) : Queue :=
  {| maxsize := maxsize q; items := items q ++ [e] |}.

(** [EventStore]: [subscribers] holds references to queue objects. *)
Record EventStore := {
  events : list NotificationEvent;
  subscribers : gmap string (list nat)
}.

(** The store together with the queue objects it refers to; [next_ref] is
    the reference the next allocated queue gets. *)
Record World := {
  store : EventStore;
  heap : gmap nat Queue;
  next_ref : nat
}.

(** [EventStore.__init__] *)
Definition EventStore_init : EventStore :=
  {| events := []; subscribers := ∅ |}.

Definition World_init : World :=
  {| store := EventStore_init; heap := ∅; next_ref := 0 |}.

(** Computations over the world that may raise; the world reached when an
    exception is raised is kept, as a handler continues from it. *)
Definition M (A : Type) : Type := World → Py.result A * World.

Definition ret {A} (a : A) : M A := λ w, (Py.Ok a, w).

Definition raise {A} (e : Py.exn) : M A := λ w, (Py.Raise e, w).

Definition bind {A B} (c : M A) (k : A → M B) : M B :=
  λ w, match c w with
       | (Py.Ok a, w') => k a w'
       | (Py.Raise e, w') => (Py.Raise e, w')
       end.

(** [try: body except ...: handler] *)
Definition try_except {A} (body : M A) (handler : Py.exn → M A) : M A :=
  λ w, match body w with
       | (Py.Ok a, w') => (Py.Ok a, w')
       | (Py.Raise e, w') => handler e w'
       end.

Notation "'let*' x := c1 'in' c2" := (bind c1 (λ x, c2))
  (at level 10, x name, c1 at level 100, c2 at level 200).

Definition lift {A} (r : Py.result A) : M A := λ w, (r, w).

Definition get_events : M (list NotificationEvent) :=
  λ w, (Py.Ok (events (store w)), w).

Definition with_events (evs : list NotificationEvent) (w : World) : World :=
  {| store := {| events := evs; subscribers := subscribers (store w) |};
     heap := heap w; next_ref := next_ref w |}.

Definition with_heap (h : gmap nat Queue) (w : World) : World :=
  {| store := store w; heap := h; next_ref := next_ref w |}.

Definition set_events (evs : list NotificationEvent) : M unit :=
  λ w, (Py.Ok tt, with_events evs w).

Definition with_subscribers (subs : gmap string (list nat)) (w : World) : World :=
  {| store := {| events := events (store w); subscribers := subs |};
     heap := heap w; next_ref := next_ref w |}.

(** [user_id in self.subscribers] *)
Definition subs_contains (user_id : string) : M bool :=
  λ w, (Py.Ok (bool_decide (is_Some (subscribers (store w) !! user_id))), w).

(** [self.subscribers[user_id]] *)
Definition subs_getitem (user_id : string) : M (list nat) :=
  λ w, match subscribers (store w) !! user_id with
       | Some l => (Py.Ok l, w)
       | None => (Py.Raise Py.KeyError, w)
       end.

(** [self.subscribers[user_id] = l]; also the write-back of a list that the
    source mutates in place through [self.subscribers[user_id]]. *)
Definition subs_setitem (user_id : string) (l : list nat) : M unit :=
  λ w, (Py.Ok tt, with_subscribers (<[user_id := l]> (subscribers (store w))) w).

(** [del self.subscribers[user_id]] *)
Definition subs_delitem (user_id : string) : M unit :=
  λ w, match subscribers (store w) !! user_id with
       | Some _ => (Py.Ok tt, with_subscribers (delete user_id (subscribers (store w))) w)
       | None => (Py.Raise Py.KeyError, w)
       end.

(** [asyncio.Queue(maxsize=n)]: a new object, under a reference no other
    queue has. *)
Definition Queue_new (n : Z) : M nat :=
  λ w, (Py.Ok (next_ref w),
        {| store := store w;
           heap := <[next_ref w := Queue_init n]> (heap w);
           next_ref := S (next_ref w) |}).

(** One [await queue.put(event)], up to its first suspension: on a queue
    with a free slot the item is enqueued without giving up control; on a
    full queue the caller is suspended until a consumer frees a slot. A
    reference held by the registry always designates an allocated queue
    (see [World_wf]), so the last case does not arise. *)
Inductive PutOutcome := Enqueued | WaitsForSlot.

Definition queue_put (queue : nat) (event : NotificationEvent) : M PutOutcome :=
  λ w, match heap w !! queue with
       | Some q =>
           if full q then (Py.Ok WaitsForSlot, w)
           else (Py.Ok Enqueued, with_heap (<[queue := put_nowait event q]> (heap w)) w)
       | None => (Py.Ok Enqueued, w)
       end.

(** What a call of the coroutine [publish_event] has done when it first
    gives up control: it ran to its end, or it is suspended in the [put] on
    [queue] with [pending] the queues of the list after it. *)
Inductive Outcome :=
| Completed
| Suspended (queue : nat) (pending : list nat).

(** The loop [for queue in self.subscribers[user_id]] with its handler: an
    [Exception] raised by a [put] is logged and the loop goes on. Log
    records are not part of the world. What a suspended call does once it is
    resumed is not modelled; it touches neither the log nor the registry. *)
Fixpoint put_all (event : NotificationEvent) (qs : list nat) : M Outcome :=
  match qs with
  | [] => ret Completed
  | queue :: rest =>
      let* r := try_except (queue_put queue event)
                  (λ e, if Py.is_Exception e then ret Enqueued else raise e) in
      match r with
      | Enqueued => put_all event rest
      | WaitsForSlot => ret (Suspended queue rest)
      end
  end.

(** [EventStore.publish_event] *)
Definition publish_event (event : NotificationEvent) : M Outcome :=
  let* evs := get_events in
  let* _ := set_events (evs ++ [event]) in
  let* evs := get_events in
  let* _ := (if decide (1000 < length evs) then set_events (Py.slice_from (-1000) evs)
             else ret tt) in
  let user_id := Py.or_ (user_id event) "global" in
  let* known := subs_contains user_id in
  if known then
    let* qs := subs_getitem user_id in
    put_all event qs
  else ret Completed.

(** [EventStore.subscribe] *)
Definition subscribe (user_id : string) : M nat :=
  let* known := subs_contains user_id in
  let* _ := (if negb known then subs_setitem user_id [] else ret tt) in
  let* queue := Queue_new 100 in
  let* l := subs_getitem user_id in
  let* _ := subs_setitem user_id (l ++ [queue]) in
  ret queue.

(** [EventStore.unsubscribe] *)
Definition unsubscribe (user_id : string) (queue : nat) : M unit :=
  let* known := subs_contains user_id in
  if known then
    try_except
      (let* l := subs_getitem user_id in
       let* l' := lift (Py.list_remove queue l) in
       let* _ := subs_setitem user_id l' in
       let* l'' := subs_getitem user_id in
       match l'' with
       | [] => subs_delitem user_id
       | _ :: _ => ret tt
       end)
      (λ e, match e with
            | Py.ValueError => ret tt
            | _ => raise e
            end)
  else ret tt.

(** The filter of [get_recent_events]:
    [e.user_id == user_id or e.user_id is None]. *)
Definition visible_to (user : string) (e : NotificationEvent) : bool :=
  match user_id e with
  | Some u => String.eqb u user
  | None => true
  end.

(** [EventStore.get_recent_events] *)
Definition get_recent_events (user : string) (limit : Z)
  : M (list NotificationEvent) :=
  let* evs := get_events in
  let user_events := List.filter (visible_to user) evs in
  ret (Py.slice_from (- limit) user_events).

(** ** The streaming generator [stream_notifications.event_generator] *)

(** What the generator reads from its surroundings when it runs: the event
    loop's time in milliseconds, and [datetime.utcnow().isoformat()]. *)
Record Clock := {
  loop_ms : Z;
  utc_iso : string
}.

(** [timeout=30.0] of [asyncio.wait_for], in milliseconds of loop time. *)
Definition heartbeat_timeout_ms : Z := 30000.

(** [queue.get()] completing: the oldest item leaves the queue. It cannot
    complete on an empty queue. *)
Definition queue_get (queue : nat) (w : World)
  : option (NotificationEvent * World) :=
  match heap w !! queue with
  | Some q =>
      match items q with
      | e :: rest =>
          Some (e, with_heap (<[queue := {| maxsize := maxsize q; items := rest |}]> (heap w)) w)
      | [] => None
      end
  | None => None
  end.

(** The points at which the generator can be suspended: not started, at one
    of its three [yield]s, in the [await] of the loop (with the loop time at
    which [wait_for] was entered), or finished. *)
Inductive GenState :=
| Created
| AtConnected (queue : nat)
| Waiting (queue : nat) (since : Z)
| AtEvent (queue : nat)
| AtHeartbeat (queue : nat)
| Finished.

(** How the generator is resumed: by its consumer at a [yield]
    ([__anext__], or [athrow]/[aclose], the latter throwing
    [GeneratorExit]), or by the event loop at the [await]. *)
Inductive GenInput :=
| Next
| Throw (e : Py.exn)
| GetReturns
| TimeoutElapses
| AwaitRaises (e : Py.exn).

(** What the resumption produces: a chunk [data: <json>] (given by the JSON
    document), a new suspension in the [await], the end of the iteration, or
    an exception leaving the generator. *)
Inductive Observation :=
| Yielded (json : Py.value)
| Awaits
| Stopped
| Raised (e : Py.exn).

Definition connected_msg (user : string) : Py.value :=
  Py.VDict [("type", Py.VStr "connected"); ("user_id", Py.VStr user)].

Definition heartbeat_msg (c : Clock) : Py.value :=
  Py.VDict [("type", Py.VStr "heartbeat"); ("timestamp", Py.VStr (utc_iso c))].

Definition gen_queue (st : GenState) : option nat :=
  match st with
  | AtConnected q | Waiting q _ | AtEvent q | AtHeartbeat q => Some q
  | Created | Finished => None
  end.

(** The [finally] clause, entered with what the generator is about to
    report. *)
Definition finally_unsubscribe (user : string) (queue : nat)
    (obs : Observation) (w : World) : GenState * Observation * World :=
  match unsubscribe user queue w with
  | (Py.Ok _, w') => (Finished, obs, w')
  | (Py.Raise e, w') => (Finished, Raised e, w')
  end.

(** The handlers of the [try] inside the loop, for an exception [e] raised
    in its body: the heartbeat, or the logged [break], or neither. *)
Definition loop_handlers (user : string) (queue : nat) (c : Clock)
    (e : Py.exn) (w : World) : GenState * Observation * World :=
  match e with
  | Py.TimeoutError => (AtHeartbeat queue, Yielded (heartbeat_msg c), w)
  | _ =>
      if Py.is_Exception e then finally_unsubscribe user queue Stopped w
      else finally_unsubscribe user queue (Raised e) w
  end.

(** One resumption of the generator of [user], up to its next suspension;
    [None] when the input cannot occur at the suspension point. *)
Definition gen_step (user : string) (c : Clock) (st : GenState)
    (i : GenInput) (w : World) : option (GenState * Observation * World) :=
  match st, i with
  | Created, Next =>
      match subscribe user w with
      | (Py.Ok queue, w') => Some (AtConnected queue, Yielded (connected_msg user), w')
      | (Py.Raise e, w') => Some (Finished, Raised e, w')
      end
  | Created, Throw e => Some (Finished, Raised e, w)
  | AtConnected queue, Next
  | AtEvent queue, Next
  | AtHeartbeat queue, Next => Some (Waiting queue (loop_ms c), Awaits, w)
  | AtConnected queue, Throw e => Some (finally_unsubscribe user queue (Raised e) w)
  | AtEvent queue, Throw e => Some (loop_handlers user queue c e w)
  | AtHeartbeat queue, Throw e => Some (finally_unsubscribe user queue (Raised e) w)
  | Waiting queue since, GetReturns =>
      match queue_get queue w with
      | Some (event, w') =>
          if Py.serializable (to_dict event)
          then Some (AtEvent queue, Yielded (to_dict event), w')
          else Some (loop_handlers user queue c Py.TypeError w')
      | None => None
      end
  | Waiting queue since, TimeoutElapses =>
      if decide (since + heartbeat_timeout_ms ≤ loop_ms c)%Z
      then Some (loop_handlers user queue c Py.TimeoutError w)
      else None
  | Waiting queue since, AwaitRaises e => Some (loop_handlers user queue c e w)
  | Finished, Next => Some (Finished, Stopped, w)
  | _, _ => None
  end.

(** ** Runs: the generator among the other users of the store *)

(** The calls other tasks make on the store between two resumptions of the
    generator; a publish is taken up to the point where it first gives up
    control, and [OpGet] is a consumer taking the oldest item of a queue. *)
Inductive Op :=
| OpPublish (e : NotificationEvent)
| OpSubscribe (user : string)
| OpUnsubscribe (user : string) (queue : nat)
| OpGet (queue : nat).

Definition apply_op (o : Op) (w : World) : World :=
  match o with
  | OpPublish e => snd (publish_event e w)
  | OpSubscribe u => snd (subscribe u w)
  | OpUnsubscribe u q => snd (unsubscribe u q w)
  | OpGet q => match queue_get q w with
               | Some (_, w') => w'
               | None => w
               end
  end.

Definition apply_ops (ops : list Op) (w : World) : World :=
  fold_left (λ w o, apply_op o w) ops w.

(** The events handed to [publish_event] along [ops], in call order. *)
Definition published (ops : list Op) : list NotificationEvent :=
  omap (λ o, match o with OpPublish e => Some e | _ => None end) ops.

Inductive Action :=
| Drive (c : Clock) (i : GenInput)
| Env (o : Op).

Fixpoint run (user : string) (acts : list Action) (st : GenState) (w : World)
  : option (GenState * list Observation * World) :=
  match acts with
  | [] => Some (st, [], w)
  | Drive c i :: acts' =>
      match gen_step user c st i w with
      | Some (st', obs, w') =>
          match run user acts' st' w' with
          | Some (st'', out, w'') => Some (st'', obs :: out, w'')
          | None => None
          end
      | None => None
      end
  | Env o :: acts' => run user acts' st (apply_op o w)
  end.

(** ** Invariants and reference statements *)

(** [queue] is in the list kept under [user]. *)
Definition registered (w : World) (user : string) (queue : nat) : Prop :=
  ∃ l, subscribers (store w) !! user = Some l ∧ queue ∈ l.

(** What every world built by the store's methods satisfies. *)
Record World_wf (w : World) : Prop := {
  wf_allocated : ∀ u q, registered w u q → is_Some (heap w !! q);
  wf_nodup : ∀ u l, subscribers (store w) !! u = Some l → NoDup l;
  wf_one_key : ∀ u1 u2 q, registered w u1 q → registered w u2 q → u1 = u2;
  wf_nonempty : ∀ u l, subscribers (store w) !! u = Some l → l ≠ [];
  wf_heap_bound : ∀ q, is_Some (heap w !! q) → q < next_ref w;
  wf_queue : ∀ q Q, heap w !! q = Some Q →
             maxsize Q = 100%Z ∧ length (items Q) ≤ 100;
  wf_log : length (events (store w)) ≤ 1000
}.

(** The last [n] elements of [l], in the order of [l]. *)
Definition last_n {A} (n : nat) (l : list A) : list A :=
  drop (length l - n) l.

(** The recipient of [e] is [r], or [e] has no recipient. *)
Definition for_recipient (r : string) (e : NotificationEvent) : Prop :=
  user_id e = Some r ∨ user_id e = None.

#[global] Instance for_recipient_dec r e : Decision (for_recipient r e).
Proof. unfold for_recipient. apply _. Defined.

(** The reading of the log the specification gives: the last [limit]
    events for [r], in arrival order. *)
Definition RecentFor (r : string) (limit : nat) (log : list NotificationEvent)
  : list NotificationEvent :=
  last_n limit (filter (for_recipient r) log).

(** The queue under reference [q] is at its capacity. *)
Definition is_full (w : World) (q : nat) : Prop :=
  ∃ Q, heap w !! q = Some Q ∧ full Q = true.

(** The items buffered under reference [q]. *)
Definition buffered (w : World) (q : nat) : list NotificationEvent :=
  match heap w !! q with
  | Some Q => items Q
  | None => []
  end.

(** The registry [unsubscribe] leaves behind. *)
Definition registry_without (u : string) (q : nat)
    (subs : gmap string (list nat)) : gmap string (list nat) :=
  match subs !! u with
  | Some l =>
      match Py.list_remove q l with
      | Py.Ok [] => delete u subs
      | Py.Ok l' => <[u := l']> subs
      | Py.Raise _ => subs
      end
  | None => subs
  end.

(** The log after [self.events.append(event)] and the truncation that
    follows it in [publish_event]. *)
Definition log_after (event : NotificationEvent) (log : list NotificationEvent)
  : list NotificationEvent :=
  let evs := log ++ [event] in
  if decide (1000 < length evs) then Py.slice_from (-1000) evs else evs.

(** The loop of [publish_event] on the queue objects alone. *)
Fixpoint deliver (event : NotificationEvent) (qs : list nat) (h : gmap nat Queue)
  : Outcome * gmap nat Queue :=
  match qs with
  | [] => (Completed, h)
  | q :: rest =>
      match h !! q with
      | Some Q =>
          if full Q then (Suspended q rest, h)
          else deliver event rest (<[q := put_nowait event Q]> h)
      | None => deliver event rest h
      end
  end.

(** The queue a running generator of [user] holds is allocated, and it is
    registered under no other user. *)
Definition gen_inv (user : string) (st : GenState) (w : World) : Prop :=
  World_wf w
  ∧ ∀ q, gen_queue st = Some q →
         q < next_ref w ∧ ∀ u, registered w u q → u = user.

(** The queue [q] has been allocated and is registered nowhere. *)
Definition released (q : nat) (w : World) : Prop :=
  World_wf w ∧ q < next_ref w ∧ ∀ u, ¬ registered w u q.

(** ** The waits of a stream in loop time *)

(** The clock read at loop time [t]; [iso] gives the wall clock at a loop
    time. *)
Definition clock_at (t : Z) (iso : Z → string) : Clock :=
  {| loop_ms := t; utc_iso := iso t |}.

(** [await asyncio.wait_for(queue.get(), timeout=30.0)], entered at loop
    time [now] with [deadline] 30 seconds later, while other tasks make the
    calls of [tl], each at its loop time and in that order: the wait ends
    with the oldest item as soon as the queue holds one; a call made before
    the deadline is carried out and may put one there; when the deadline is
    reached with the queue still empty the wait ends with [TimeoutError].
    The result is the loop time at which the wait ends, how it ends, the
    calls not yet made, and the world. *)
Fixpoint await_get (q : nat) (now deadline : Z) (tl : list (Z * Op)) (w : World)
  : Z * GenInput * list (Z * Op) * World :=
  match buffered w q with
  | _ :: _ => (now, GetReturns, tl, w)
  | [] =>
      match tl with
      | (t, o) :: tl' =>
          if (t <? deadline)%Z
          then await_get q (Z.max now t) deadline tl' (apply_op o w)
          else (deadline, TimeoutElapses, tl, w)
      | [] => (deadline, TimeoutElapses, [], w)
      end
  end.

(** One turn of a waiting stream: the wait ends as [await_get] says and the
    generator runs to its next [yield]; the consumer asks for the next
    chunk [latency] milliseconds later, which begins the next wait. What
    the consumer observes is listed with its loop time. *)
Definition stream_turn (user : string) (q : nat) (since latency : Z)
    (iso : Z → string) (tl : list (Z * Op)) (w : World)
  : option (GenState * list (Z * Observation) * list (Z * Op) * World) :=
  match await_get q since (since + heartbeat_timeout_ms) tl w with
  | (t, i, tl', w1) =>
      match gen_step user (clock_at t iso) (Waiting q since) i w1 with
      | Some (st, obs, w2) =>
          match gen_queue st with
          | Some _ =>
              match gen_step user (clock_at (t + latency) iso) st Next w2 with
              | Some (st', obs', w3) =>
                  Some (st', [(t, obs); ((t + latency)%Z, obs')], tl', w3)
              | None => None
              end
          | None => Some (st, [(t, obs)], tl', w2)
          end
      | None => None
      end
  end.

(** The turns of a stream, one for each latency of the consumer, as long as
    the stream is waiting. *)
Fixpoint stream_turns (user : string) (latencies : list Z) (st : GenState)
    (iso : Z → string) (tl : list (Z * Op)) (w : World)
  : option (GenState * list (Z * Observation) * list (Z * Op) * World) :=
  match latencies, st with
  | latency :: rest, Waiting q since =>
      match stream_turn user q since latency iso tl w with
      | Some (st1, out1, tl1, w1) =>
          match stream_turns user rest st1 iso tl1 w1 with
          | Some (st2, out2, tl2, w2) => Some (st2, out1 ++ out2, tl2, w2)
          | None => None
          end
      | None => None
      end
  | _, _ => Some (st, [], tl, w)
  end.

(** Nothing arrives in the queue [q] while the calls of [tl] are made. *)
Definition quiet (q : nat) (tl : list (Z * Op)) (w : World) : Prop :=
  ∀ k, buffered (apply_ops (map snd (take k tl)) w) q = [].

(** What an idle stream whose wait began at [since] gives a consumer with
    the given latencies: a heartbeat 30 seconds after each wait began, and
    the next wait when the consumer asks for it. *)
Fixpoint idle_chunks (latencies : list Z) (since : Z) (iso : Z → string)
  : list (Z * Observation) :=
  match latencies with
  | [] => []
  | latency :: rest =>
      let t := (since + heartbeat_timeout_ms)%Z in
      (t, Yielded (heartbeat_msg (clock_at t iso)))
      :: ((t + latency)%Z, Awaits)
      :: idle_chunks rest (t + latency) iso
  end.

(** The loop times at which the consumer was given a chunk. *)
Definition yield_times (out : list (Z * Observation)) : list Z :=
  omap (λ to, match to.2 with Yielded _ => Some to.1 | _ => None end) out.

(** The loop time at which the wait after those turns begins. *)
Fixpoint idle_since (latencies : list Z) (since : Z) : Z :=
  match latencies with
  | [] => since
  | latency :: rest => idle_since rest (since + heartbeat_timeout_ms + latency)
  end.

(** ** Sample data *)

Definition sample_event (u : option string) (ms : Z) : NotificationEvent :=
  NotificationEvent_init MESSAGE_RECEIVED
    (Py.VDict [("text", Py.VStr "hi")]) u None "2024-05-01T12:00:00" ms.

(** A wall clock that reads 12:00:00 at loop time 0. *)
Definition sample_iso (t : Z) : string :=
  if (t =? 30000)%Z then "2024-05-01T12:00:30"
  else if (t =? 60005)%Z then "2024-05-01T12:01:00.005000"
  else "2024-05-01T12:00:00".

(** While ["u1"] streams, an event for ["u2"] is published at loop time
    100. *)
Definition sample_timeline : list (Z * Op) :=
  [(100%Z, OpPublish (sample_event (Some "u2") 1))].

Definition sample_clock (ms : Z) : Clock :=
  {| loop_ms := ms; utc_iso := "2024-05-01T12:00:30" |}.

(** One subscriber of ["u1"]. *)
Definition world_u1 : World := apply_ops [OpSubscribe "u1"] World_init.

(** Two subscribers of ["u1"]; the first never reads and holds 100 events,
    the second has read everything. *)
Definition world_slow_reader : World :=
  apply_ops ([OpSubscribe "u1"; OpSubscribe "u1"]
             ++ map (λ i, OpPublish (sample_event (Some "u1") (Z.of_nat i))) (seq 0 100)
             ++ replicate 100 (OpGet 1))
            World_init.

(** One subscriber of [""] (queue 0) and one of ["global"] (queue 1). *)
Definition world_two_keys : World :=
  apply_ops [OpSubscribe ""; OpSubscribe "global"] World_init.

(** A stream is opened; later an event for its user is published, the
    consumer asks for the next chunk, the event is delivered, and the
    consumer closes the generator. *)
Definition stream_opening : list Action := [Drive (sample_clock 0) Next].

Definition stream_closing : list Action :=
  [Env (OpPublish (sample_event (Some "u1") 9));
   Drive (sample_clock 10) Next;
   Drive (sample_clock 20) GetReturns;
   Drive (sample_clock 30) (Throw Py.GeneratorExit)].

(** 1005 publishes of distinct events. *)
Definition many_publishes : list Op :=
  map (λ i, OpPublish (sample_event None (Z.of_nat i))) (seq 0 1005).

(** ** The producers and the endpoints around the store *)

(** [publish_notification]: builds the event at the clock readings of its
    constructor and publishes it; the [logger.info] that follows is not part
    of the world. *)
Definition publish_notification (event_type : NotificationType) (data : Py.value)
    (user_id conversation_id : option string) (now_iso : string) (now_ms : Z)
  : M Outcome :=
  publish_event
    (NotificationEvent_init event_type data user_id conversation_id now_iso now_ms).

(** [notify_message_received] *)
Definition notify_message_received (user_id conversation_id : string)
    (message_data : Py.value) (now_iso : string) (now_ms : Z) : M Outcome :=
  publish_notification MESSAGE_RECEIVED
    (Py.VDict [("message", message_data);
               ("conversation_id", Py.VStr conversation_id)])
    (Some user_id) (Some conversation_id) now_iso now_ms.

(** [notify_conversation_updated] *)
Definition notify_conversation_updated (user_id conversation_id : string)
    (update_data : Py.value) (now_iso : string) (now_ms : Z) : M Outcome :=
  publish_notification CONVERSATION_UPDATED
    (Py.VDict [("conversation_id", Py.VStr conversation_id);
               ("updates", update_data)])
    (Some user_id) (Some conversation_id) now_iso now_ms.

(** The keywords of a call [publish_notification(k1=v1, ...)]: the values
    given for the four parameters of the function, and the keywords that
    name no parameter. *)
Record Keywords := {
  kw_event_type : option NotificationType;
  kw_data : option Py.value;
  kw_user_id : option (option string);
  kw_conversation_id : option (option string);
  kw_unknown : list (string * Py.value)
}.

(** The call by keywords: a keyword that names no parameter, or a missing
    [event_type] or [data], is a [TypeError] raised before the body runs;
    [user_id] and [conversation_id] default to [None]. *)
Definition call_publish_notification (kw : Keywords) (now_iso : string)
    (now_ms : Z) : M Outcome :=
  match kw_unknown kw with
  | _ :: _ => raise Py.TypeError
  | [] =>
      match kw_event_type kw, kw_data kw with
      | Some event_type, Some data =>
          publish_notification event_type data
            (default None (kw_user_id kw)) (default None (kw_conversation_id kw))
            now_iso now_ms
      | _, _ => raise Py.TypeError
      end
  end.

(** What a request handler ends with: a response body, an [HTTPException],
    or an exception it lets through. *)
Inductive Reply (A : Type) :=
| Returns (a : A)
| HTTPException (status_code : nat) (detail : string)
| Propagates (e : Py.exn).
Arguments Returns {A} a.
Arguments HTTPException {A} status_code detail.
Arguments Propagates {A} e.

(** [try: body except Exception as e: ...; raise HTTPException(500, detail)] *)
Definition or_500 {A} (detail : string) (body : M A) : World → Reply A * World :=
  λ w, match body w with
       | (Py.Ok a, w') => (Returns a, w')
       | (Py.Raise e, w') =>
           if Py.is_Exception e then (HTTPException 500 detail, w')
           else (Propagates e, w')
       end.

(** [d[k]] on a dictionary with string keys. *)
Definition dict_getitem (d : gmap string Py.value) (k : string) : M Py.value :=
  λ w, match d !! k with
       | Some v => (Py.Ok v, w)
       | None => (Py.Raise Py.KeyError, w)
       end.

(** [d.get(k)] *)
Definition dict_get (d : gmap string Py.value) (k : string) : Py.value :=
  default Py.VNone (d !! k).

(** Truth value of a value. *)
Definition value_truthy (v : Py.value) : bool :=
  match v with
  | Py.VNone => false
  | Py.VBool b => b
  | Py.VInt z => negb (z =? 0)%Z
  | Py.VStr s => negb (String.eqb s "")
  | Py.VList l => match l with [] => false | _ :: _ => true end
  | Py.VDict kv => match kv with [] => false | _ :: _ => true end
  | Py.VOpaque => true
  end.

(** [get_recent_events] called with the value found under ["id"]: no
    recipient of an event, a string, equals a value that is not a string, so
    for such a value the filter keeps the events without recipient. *)
Definition get_recent_events_of (uid : Py.value) (limit : Z)
  : M (list NotificationEvent) :=
  match uid with
  | Py.VStr s => get_recent_events s limit
  | _ =>
      let* evs := get_events in
      let user_events :=
        List.filter (λ e, match user_id e with None => true | Some _ => false end) evs in
      ret (Py.slice_from (- limit) user_events)
  end.

(** [get_recent_notifications], the polling endpoint of the router. *)
Definition get_recent_notifications (limit : Z)
    (current_user : gmap string Py.value) (c : Clock)
  : World → Reply Py.value * World :=
  or_500 "获取通知失败"
    (let* uid := dict_getitem current_user "id" in
     let* events := get_recent_events_of uid limit in
     ret (Py.VDict [("events", Py.VList (map to_dict events));
                    ("count", Py.VInt (Z.of_nat (length events)));
                    ("timestamp", Py.VStr (utc_iso c))])).

(** [AuthManager.verify_token]; [decode] stands for [jwt.decode] with the
    manager's key and algorithm, [None] being a [JWTError]. *)
Definition verify_token (decode : string → option (gmap string Py.value))
    (token : string) : Reply (gmap string Py.value) :=
  match decode token with
  | Some payload =>
      match dict_get payload "sub" with
      | Py.VNone => HTTPException 401 "无效的认证凭据"
      | _ => Returns payload
      end
  | None => HTTPException 401 "无效的认证凭据"
  end.

(** [get_current_user], the dependency that gives the endpoints their
    [current_user]. *)
Definition get_current_user (decode : string → option (gmap string Py.value))
    (token : string) : Reply (gmap string Py.value) :=
  match verify_token decode token with
  | Returns payload =>
      if value_truthy (dict_get payload "is_anonymous")
      then Returns (<["id" := dict_get payload "sub"]>
                    (<["email" := Py.VNone]>
                     (<["is_anonymous" := Py.VBool true]> ∅)))
      else Returns (<["id" := dict_get payload "sub"]>
                    (<["email" := dict_get payload "email"]>
                     (<["is_anonymous" := Py.VBool false]> ∅)))
  | HTTPException status_code detail => HTTPException status_code detail
  | Propagates e => Propagates e
  end.

(** What [chat.send_message] holds when it reaches its notification: the
    results of the database and of the completion service, which are not
    part of this development. *)
Record SendContext := {
  sc_conversation_id : string;
  sc_user_id : Py.value;
  sc_user_message : gmap string Py.value;
  sc_ai_message : gmap string Py.value;
  sc_content : string;
  sc_model : string;
  sc_tokens_used : Py.value
}.

(** The keywords [chat.send_message] passes to [publish_notification]. *)
Definition send_message_keywords (ctx : SendContext) (message_id : Py.value)
  : Keywords :=
  {| kw_event_type := Some MESSAGE_RECEIVED;
     kw_data := None;
     kw_user_id := None;
     kw_conversation_id := None;
     kw_unknown :=
       [("title", Py.VStr "收到新回复");
        ("message", Py.VStr "AI助手回复了您的消息");
        ("metadata",
         Py.VDict [("conversation_id", Py.VStr (sc_conversation_id ctx));
                   ("message_id", message_id);
                   ("user_id", sc_user_id ctx)])] |}.

(** [chat.send_message] from the point where the reply of the assistant has
    been stored: [before] is the outcome of everything up to there, an
    exception raised there included. *)
Definition send_message (before : Py.result SendContext) (now_iso : string)
    (now_ms : Z) : World → Reply Py.value * World :=
  or_500 "发送消息失败"
    (let* ctx := lift before in
     let* message_id := dict_getitem (sc_ai_message ctx) "id" in
     let* _ := call_publish_notification (send_message_keywords ctx message_id)
                 now_iso now_ms in
     let* user_message_id := dict_getitem (sc_user_message ctx) "id" in
     let* assistant_message_id := dict_getitem (sc_ai_message ctx) "id" in
     ret (Py.VDict [("message", Py.VStr (sc_content ctx));
                    ("conversation_id", Py.VStr (sc_conversation_id ctx));
                    ("user_message_id", user_message_id);
                    ("assistant_message_id", assistant_message_id);
                    ("model_used", Py.VStr (sc_model ctx));
                    ("tokens_used", sc_tokens_used ctx)])).

(** ** Reference statements for the delivery to streams *)

(** The key under which [publish_event] looks for queues. *)
Definition routing_key (e : NotificationEvent) : string :=
  Py.or_ (user_id e) "global".

(** The consumer of a waiting stream takes [n] events one after the other,
    asking for the next chunk after each. *)
Fixpoint drain (n : nat) (c : Clock) : list Action :=
  match n with
  | 0 => []
  | S n' => Drive c GetReturns :: Drive c Next :: drain n' c
  end.

(** The chunks of the events [evs], each followed by the new wait. *)
Definition chunks_of (evs : list NotificationEvent) : list Observation :=
  flat_map (λ e, [Yielded (to_dict e); Awaits]) evs.

(** More sample data: an event [json.dumps] cannot encode, and an identity
    as [get_current_user] builds it. *)
Definition opaque_event : NotificationEvent :=
  NotificationEvent_init USER_JOINED (Py.VDict [("joined_at", Py.VOpaque)])
    (Some "u1") None "2024-05-01T12:00:00" 77.

Definition sample_user : gmap string Py.value :=
  <["id" := Py.VStr "u1"]>
    (<["email" := Py.VNone]> (<["is_anonymous" := Py.VBool true]> ∅)).

Definition sample_decode (token : string) : option (gmap string Py.value) :=
  if String.eqb token "good"
  then Some (<["sub" := Py.VStr "u1"]> (<["is_anonymous" := Py.VBool true]> ∅))
  else None.

Definition sample_context : SendContext :=
  {| sc_conversation_id := "c1";
     sc_user_id := Py.VStr "u1";
     sc_user_message := <["id" := Py.VInt 1]> ∅;
     sc_ai_message := <["id" := Py.VInt 2]> ∅;
     sc_content := "hello";
     sc_model := "deepseek-chat";
     sc_tokens_used := Py.VInt 12 |}.

(** ** Effects of the store's methods in closed form *)

Lemma with_subscribers_id w : with_subscribers (subscribers (store w)) w = w.
Proof. by destruct w as [[??]??]. Qed.

Lemma list_remove_not_in (q : nat) l : q ∉ l → Py.list_remove q l = Py.Raise Py.ValueError.
Proof.
  induction l as [|y l IH]; simpl; [done|].
  intros Hq. apply not_elem_of_cons in Hq as [Hne Hq].
  rewrite decide_False by done. by rewrite IH.
Qed.

Lemma list_remove_in (q : nat) l :
  q ∈ l →
  ∃ l1 l2, l = l1 ++ q :: l2 ∧ (q ∉ l1) ∧ Py.list_remove q l = Py.Ok (l1 ++ l2).
Proof.
  induction l as [|y l IH]; simpl; [by intros ?%elem_of_nil|].
  intros Hq. destruct (decide (q = y)) as [->|Hne].
  - exists [], l. split_and!; [done|apply not_elem_of_nil|done].
  - apply elem_of_cons in Hq as [?|Hq]; [done|].
    destruct (IH Hq) as (l1 & l2 & -> & Hl1 & ->).
    exists (y :: l1), l2. split_and!; [done| |done].
    apply not_elem_of_cons. done.
Qed.

Lemma list_remove_raises (q : nat) l e : Py.list_remove q l = Py.Raise e → e = Py.ValueError ∧ q ∉ l.
Proof.
  destruct (decide (q ∈ l)) as [Hin|Hni].
  - destruct (list_remove_in q l Hin) as (?&?&_&_&->). done.
  - rewrite list_remove_not_in by done. intros [= <-]. done.
Qed.

(** [subscribe] allocates a queue of capacity 100 under the next reference
    and appends it to the list of [u], creating the list when needed. *)
Lemma subscribe_eq u w :
  subscribe u w =
  (Py.Ok (next_ref w),
   {| store := {| events := events (store w);
                  subscribers := <[u := default [] (subscribers (store w) !! u) ++ [next_ref w]]>
                                   (subscribers (store w)) |};
      heap := <[next_ref w := Queue_init 100]> (heap w);
      next_ref := S (next_ref w) |}).
Proof.
  unfold subscribe, bind, subs_contains, subs_setitem, subs_getitem, Queue_new,
    ret, with_subscribers. simpl.
  destruct (subscribers (store w) !! u) as [l|] eqn:Hu; simpl.
  - by rewrite Hu.
  - rewrite lookup_insert_eq. simpl. by rewrite insert_insert_eq.
Qed.

Lemma unsubscribe_eq u q w :
  unsubscribe u q w = (Py.Ok tt, with_subscribers (registry_without u q (subscribers (store w))) w).
Proof.
  unfold unsubscribe, registry_without, bind, try_except, subs_contains,
    subs_setitem, subs_getitem, subs_delitem, lift, ret, with_subscribers.
  simpl.
  destruct (subscribers (store w) !! u) as [l|] eqn:Hu; simpl.
  - rewrite Hu. simpl.
    destruct (Py.list_remove q l) as [[|x l']|e] eqn:Hr; simpl.
    + repeat (rewrite lookup_insert_eq; simpl). by rewrite delete_insert_eq.
    + by repeat (rewrite lookup_insert_eq; simpl).
    + apply list_remove_raises in Hr as [-> _]. by destruct w as [[??]??].
  - by destruct w as [[??]??].
Qed.

Lemma with_heap_id w : with_heap (heap w) w = w.
Proof. by destruct w. Qed.

Lemma put_all_eq event qs w :
  put_all event qs w =
  (Py.Ok (deliver event qs (heap w)).1, with_heap (deliver event qs (heap w)).2 w).
Proof.
  revert w. induction qs as [|q rest IH]; intros w; simpl.
  - unfold ret. by rewrite with_heap_id.
  - unfold bind, try_except, queue_put.
    destruct (heap w !! q) as [Q|] eqn:Hq; simpl.
    + destruct (full Q); simpl; [by rewrite with_heap_id|].
      by rewrite IH.
    + by rewrite IH.
Qed.

Lemma publish_event_eq event w :
  publish_event event w =
  let w1 := with_events (log_after event (events (store w))) w in
  match subscribers (store w) !! Py.or_ (user_id event) "global" with
  | Some qs => put_all event qs w1
  | None => (Py.Ok Completed, w1)
  end.
Proof.
  unfold publish_event, log_after, bind, get_events, set_events, subs_contains,
    subs_getitem, ret. simpl.
  destruct (decide (1000 < length (events (store w) ++ [event]))); simpl;
    destruct (subscribers (store w) !! Py.or_ (user_id event) "global") eqn:Hs;
    simpl; rewrite ?Hs; reflexivity.
Qed.

(** ** The delivery loop *)

Lemma deliver_other event qs h q :
  q ∉ qs → (deliver event qs h).2 !! q = h !! q.
Proof.
  revert h. induction qs as [|p rest IH]; intros h Hq; simpl; [done|].
  apply not_elem_of_cons in Hq as [Hne Hq].
  destruct (h !! p) as [P|] eqn:Hp; [|by apply IH].
  destruct (full P); simpl; [done|].
  rewrite IH by done. by rewrite lookup_insert_ne.
Qed.

Lemma deliver_is_Some event qs h q :
  is_Some ((deliver event qs h).2 !! q) ↔ is_Some (h !! q).
Proof.
  revert h. induction qs as [|p rest IH]; intros h; simpl; [done|].
  destruct (h !! p) as [P|] eqn:Hp; [|by apply IH].
  destruct (full P); simpl; [done|].
  rewrite IH. destruct (decide (p = q)) as [->|Hne].
  - rewrite lookup_insert_eq, Hp. split; eauto.
  - by rewrite lookup_insert_ne.
Qed.

Lemma put_nowait_bounded event Q :
  maxsize Q = 100%Z → full Q = false →
  maxsize (put_nowait event Q) = 100%Z ∧ length (items (put_nowait event Q)) ≤ 100.
Proof.
  unfold full, put_nowait. simpl. intros ->. simpl.
  intros Hf%Z.leb_gt. rewrite length_app. simpl. lia.
Qed.

Lemma deliver_bounded event qs h :
  (∀ q Q, h !! q = Some Q → maxsize Q = 100%Z ∧ length (items Q) ≤ 100) →
  ∀ q Q, (deliver event qs h).2 !! q = Some Q →
         maxsize Q = 100%Z ∧ length (items Q) ≤ 100.
Proof.
  revert h. induction qs as [|p rest IH]; intros h Hh; simpl; [done|].
  destruct (h !! p) as [P|] eqn:Hp; [|by apply IH].
  destruct (full P) eqn:Hf; simpl; [done|].
  apply IH. intros q Q. destruct (decide (p = q)) as [->|Hne].
  - rewrite lookup_insert_eq. intros [= <-].
    apply put_nowait_bounded; [|done]. by destruct (Hh _ _ Hp).
  - rewrite lookup_insert_ne by done. apply Hh.
Qed.

(** When the loop runs to its end, every queue of the list has the event
    behind what it held. *)
Lemma deliver_completed event qs h :
  NoDup qs → (deliver event qs h).1 = Completed →
  ∀ q Q, q ∈ qs → h !! q = Some Q →
         full Q = false ∧ (deliver event qs h).2 !! q = Some (put_nowait event Q).
Proof.
  revert h. induction qs as [|p rest IH]; intros h Hnd Hc q Q Hq HQ;
    [by apply elem_of_nil in Hq|].
  apply NoDup_cons in Hnd as [Hp Hnd]. simpl in *.
  destruct (decide (q = p)) as [->|Hne].
  - rewrite HQ in *. destruct (full Q) eqn:Hf; simpl in *; [done|].
    split; [done|]. rewrite deliver_other by done. by rewrite lookup_insert_eq.
  - apply elem_of_cons in Hq as [?|Hq]; [done|].
    destruct (h !! p) as [P|] eqn:HP; [|by apply IH].
    destruct (full P); simpl in *; [done|].
    apply IH; [done|done|done|]. by rewrite lookup_insert_ne.
Qed.

Lemma deliver_none_full event qs h :
  NoDup qs → (∀ q Q, q ∈ qs → h !! q = Some Q → full Q = false) →
  (deliver event qs h).1 = Completed.
Proof.
  revert h. induction qs as [|p rest IH]; intros h Hnd Hh; simpl; [done|].
  apply NoDup_cons in Hnd as [Hp Hnd].
  destruct (h !! p) as [P|] eqn:HP.
  - rewrite (Hh p P) by (done || apply list_elem_of_here).
    apply IH; [done|]. intros q Q Hq.
    rewrite lookup_insert_ne by (intros ->; done).
    apply Hh. by apply list_elem_of_further.
  - apply IH; [done|]. intros q Q Hq. apply Hh. by apply list_elem_of_further.
Qed.

(** The loop stops at the first full queue of the list: the queues before
    it have the event, the full queue and those after it are as they
    were. *)
Lemma deliver_suspends event pre q rest h Q :
  NoDup (pre ++ q :: rest) →
  (∀ p P, p ∈ pre → h !! p = Some P → full P = false) →
  h !! q = Some Q → full Q = true →
  (deliver event (pre ++ q :: rest) h).1 = Suspended q rest
  ∧ (∀ q', q' ∈ q :: rest → (deliver event (pre ++ q :: rest) h).2 !! q' = h !! q')
  ∧ (∀ p P, p ∈ pre → h !! p = Some P →
            (deliver event (pre ++ q :: rest) h).2 !! p = Some (put_nowait event P)).
Proof.
  revert h. induction pre as [|p0 pre IH]; intros h Hnd Hpre HQ Hf; simpl.
  - rewrite HQ, Hf. simpl. split_and!; [done|done|].
    intros p P Hp. by apply elem_of_nil in Hp.
  - simpl in Hnd. apply NoDup_cons in Hnd as [Hp0 Hnd].
    assert (p0 ≠ q) as Hne.
    { intros ->. apply Hp0. apply elem_of_app. right. apply list_elem_of_here. }
    destruct (h !! p0) as [P0|] eqn:HP0.
    + rewrite (Hpre p0 P0) by (done || apply list_elem_of_here).
      destruct (IH (<[p0 := put_nowait event P0]> h)) as (H1 & H2 & H3);
        [done| |by rewrite lookup_insert_ne|done|].
      { intros p P Hp. rewrite lookup_insert_ne by (intros ->; apply Hp0, elem_of_app; by left).
        apply Hpre. by apply list_elem_of_further. }
      split_and!; [done| |].
      * intros q' Hq'. rewrite H2 by done. apply lookup_insert_ne.
        intros ->. apply Hp0, elem_of_app. by right.
      * intros p P Hp HP. apply elem_of_cons in Hp as [->|Hp].
        -- rewrite HP in HP0. injection HP0 as ->.
           rewrite deliver_other by done. by rewrite lookup_insert_eq.
        -- apply H3; [done|]. rewrite lookup_insert_ne; [done|].
           intros ->. apply Hp0, elem_of_app. by left.
    + destruct (IH h) as (H1 & H2 & H3); [done| |done|done|].
      { intros p P Hp. apply Hpre. by apply list_elem_of_further. }
      split_and!; [done|done|].
      intros p P Hp HP. apply elem_of_cons in Hp as [->|Hp]; [congruence|].
      by apply H3.
Qed.

(** ** Slices and the log *)

Lemma slice_from_neg {A} (k : nat) (l : list A) :
  0 < k → Py.slice_from (- Z.of_nat k) l = last_n k l.
Proof.
  intros Hk. unfold Py.slice_from, last_n.
  destruct (Z.ltb_spec (- Z.of_nat k) 0) as [_|?]; [|lia].
  f_equal. lia.
Qed.

Lemma slice_from_nonneg {A} (k : nat) (l : list A) :
  Py.slice_from (Z.of_nat k) l = drop k l.
Proof.
  unfold Py.slice_from.
  destruct (Z.ltb_spec (Z.of_nat k) 0) as [?|_]; [lia|].
  destruct (decide (k ≤ length l)).
  - f_equal. lia.
  - rewrite !drop_ge by lia. done.
Qed.

Lemma last_n_length {A} (n : nat) (l : list A) :
  length (last_n n l) = min n (length l).
Proof. unfold last_n. rewrite length_drop. lia. Qed.

Lemma last_n_all {A} (n : nat) (l : list A) : length l ≤ n → last_n n l = l.
Proof. intros Hn. unfold last_n. by replace (length l - n) with 0 by lia. Qed.

Lemma last_n_app {A} (n : nat) (l k : list A) :
  last_n n (last_n n l ++ k) = last_n n (l ++ k).
Proof.
  unfold last_n. rewrite !length_app, !length_drop, !skipn_app, drop_drop, length_drop.
  f_equal; f_equal; lia.
Qed.

Lemma log_after_eq event log :
  log_after event log = last_n 1000 (log ++ [event]).
Proof.
  unfold log_after. case_decide as Hlen.
  - by apply (slice_from_neg 1000); lia.
  - symmetry. apply last_n_all. lia.
Qed.

Lemma log_after_length event log : length (log_after event log) ≤ 1000.
Proof. rewrite log_after_eq, last_n_length. lia. Qed.

(** ** The registry under [subscribe] and [unsubscribe] *)

Lemma list_remove_ok (q : nat) l l' :
  Py.list_remove q l = Py.Ok l' →
  ∃ l1 l2, l = l1 ++ q :: l2 ∧ (q ∉ l1) ∧ l' = l1 ++ l2.
Proof.
  intros Hr. destruct (decide (q ∈ l)) as [Hin|Hni].
  - destruct (list_remove_in q l Hin) as (l1 & l2 & -> & Hl1 & Hr').
    rewrite Hr' in Hr. injection Hr as <-. eauto.
  - by rewrite list_remove_not_in in Hr.
Qed.

Lemma registry_without_ne u q subs u' :
  u' ≠ u → registry_without u q subs !! u' = subs !! u'.
Proof.
  intros Hne. unfold registry_without.
  destruct (subs !! u) as [l|]; [|done].
  destruct (Py.list_remove q l) as [[|x l']|e]; [|by rewrite lookup_insert_ne|done].
  by rewrite lookup_delete_ne.
Qed.

Lemma registry_without_eq u q subs :
  registry_without u q subs !! u =
  match subs !! u with
  | Some l =>
      match Py.list_remove q l with
      | Py.Ok [] => None
      | Py.Ok l' => Some l'
      | Py.Raise _ => Some l
      end
  | None => None
  end.
Proof.
  unfold registry_without. destruct (subs !! u) as [l|] eqn:Hu; [|done].
  destruct (Py.list_remove q l) as [[|x l']|e]; [|by rewrite lookup_insert_eq|done].
  by rewrite lookup_delete_eq.
Qed.

(** Whatever is registered after [unsubscribe] was registered before. *)
Lemma registered_unsubscribe_before u q w u' q' :
  registered (unsubscribe u q w).2 u' q' → registered w u' q'.
Proof.
  rewrite unsubscribe_eq. unfold registered. simpl.
  destruct (decide (u' = u)) as [->|Hne]; [|by rewrite registry_without_ne].
  rewrite registry_without_eq.
  destruct (subscribers (store w) !! u) as [l|]; [|by intros (?&?&?)].
  destruct (Py.list_remove q l) as [[|x l']|e] eqn:Hr; [by intros (?&?&?)| |done].
  apply list_remove_ok in Hr as (l1 & l2 & -> & _ & Hl').
  intros (k & [= <-] & Hq'). exists (l1 ++ q :: l2). split; [done|].
  rewrite Hl' in Hq'. apply elem_of_app in Hq' as [?|?]; apply elem_of_app; [by left|].
  right. by apply list_elem_of_further.
Qed.

(** With no repetition in the list of [u], [queue] is gone from it. *)
Lemma not_registered_unsubscribe u q w :
  (∀ l, subscribers (store w) !! u = Some l → NoDup l) →
  ¬ registered (unsubscribe u q w).2 u q.
Proof.
  intros Hnd. rewrite unsubscribe_eq. unfold registered. simpl.
  rewrite registry_without_eq.
  destruct (subscribers (store w) !! u) as [l|] eqn:Hu; [|by intros (?&?&?)].
  destruct (Py.list_remove q l) as [[|x l']|e] eqn:Hr; [by intros (?&?&?)| |].
  - apply list_remove_ok in Hr as (l1 & l2 & -> & Hl1 & Hl').
    intros (k & [= <-] & Hq). rewrite Hl' in Hq.
    specialize (Hnd _ eq_refl). apply NoDup_app in Hnd as (_ & Hdis & Hnd2).
    apply NoDup_cons in Hnd2 as [Hq2 _].
    apply elem_of_app in Hq as [?|?]; done.
  - apply list_remove_raises in Hr as [_ Hni]. by intros (k & [= <-] & Hq).
Qed.

Lemma registered_subscribe u w u' q' :
  registered (subscribe u w).2 u' q'
  ↔ registered w u' q' ∨ (u' = u ∧ q' = next_ref w).
Proof.
  rewrite subscribe_eq. unfold registered. simpl.
  destruct (decide (u' = u)) as [->|Hne].
  - rewrite lookup_insert_eq. split.
    + intros (l & [= <-] & Hq). apply elem_of_app in Hq as [Hq|Hq].
      * left. destruct (subscribers (store w) !! u) as [l|]; simpl in Hq; [eauto|].
        by apply elem_of_nil in Hq.
      * right. by apply list_elem_of_singleton in Hq.
    + intros [(l & Hl & Hq)|[_ ->]]; eexists; (split; [done|]).
      * rewrite Hl. simpl. apply elem_of_app. by left.
      * apply elem_of_app. right. by apply list_elem_of_singleton.
  - rewrite lookup_insert_ne by done. split; [by left|].
    intros [?|[? _]]; done.
Qed.

(** ** Well-formedness is kept by every operation *)

Lemma World_wf_init : World_wf World_init.
Proof.
  split; simpl; try (intros ?? (?&?&?)); try done; try lia.
  - intros ??? (?&?&?). done.
  - intros ? [??]. done.
Qed.

Lemma wf_registered_lt w u q : World_wf w → registered w u q → q < next_ref w.
Proof. intros Hwf Hr. by apply (wf_heap_bound w Hwf), (wf_allocated w Hwf u). Qed.

Lemma subscribe_wf u w : World_wf w → World_wf (subscribe u w).2.
Proof.
  intros Hwf. split.
  - intros u' q' [Hr|[-> ->]]%registered_subscribe; rewrite subscribe_eq; simpl.
    + pose proof (wf_registered_lt w _ _ Hwf Hr).
      rewrite lookup_insert_ne by lia. by apply (wf_allocated w Hwf u').
    + rewrite lookup_insert_eq. eauto.
  - rewrite subscribe_eq. simpl. intros u' l.
    destruct (decide (u' = u)) as [->|Hne].
    + rewrite lookup_insert_eq. intros [= <-].
      apply NoDup_app. split_and!.
      * destruct (subscribers (store w) !! u) as [l|] eqn:Hl; simpl; [|constructor].
        by apply (wf_nodup w Hwf u).
      * intros q Hq ->%list_elem_of_singleton.
        destruct (subscribers (store w) !! u) as [l|] eqn:Hl; simpl in Hq;
          [|by apply elem_of_nil in Hq].
        assert (registered w u (next_ref w)) as Hr by (exists l; done).
        apply (wf_registered_lt w _ _ Hwf) in Hr. lia.
      * apply NoDup_singleton.
    + rewrite lookup_insert_ne by done. apply (wf_nodup w Hwf).
  - intros u1 u2 q [H1|[-> ->]]%registered_subscribe [H2|[-> Hq]]%registered_subscribe.
    + by apply (wf_one_key w Hwf u1 u2 q).
    + subst q. apply (wf_registered_lt w _ _ Hwf) in H1. lia.
    + apply (wf_registered_lt w _ _ Hwf) in H2. lia.
    + done.
  - rewrite subscribe_eq. simpl. intros u' l.
    destruct (decide (u' = u)) as [->|Hne].
    + rewrite lookup_insert_eq. intros [= <-]. by intros [_ ?]%app_eq_nil.
    + rewrite lookup_insert_ne by done. apply (wf_nonempty w Hwf).
  - rewrite subscribe_eq. simpl. intros q.
    destruct (decide (q = next_ref w)) as [->|Hne]; [lia|].
    rewrite lookup_insert_ne by done. intros ?%(wf_heap_bound w Hwf). lia.
  - rewrite subscribe_eq. simpl. intros q Q.
    destruct (decide (q = next_ref w)) as [->|Hne].
    + rewrite lookup_insert_eq. intros [= <-]. simpl. split; [done|lia].
    + rewrite lookup_insert_ne by done. apply (wf_queue w Hwf).
  - rewrite subscribe_eq. simpl. apply (wf_log w Hwf).
Qed.

Lemma unsubscribe_wf u q w : World_wf w → World_wf (unsubscribe u q w).2.
Proof.
  intros Hwf. split.
  - intros u' q' Hr%registered_unsubscribe_before.
    rewrite unsubscribe_eq. simpl. by apply (wf_allocated w Hwf u').
  - rewrite unsubscribe_eq. simpl. intros u' l.
    destruct (decide (u' = u)) as [->|Hne];
      [|rewrite registry_without_ne by done; apply (wf_nodup w Hwf)].
    rewrite registry_without_eq.
    destruct (subscribers (store w) !! u) as [l0|] eqn:Hu; [|done].
    pose proof (wf_nodup w Hwf u l0 Hu) as Hnd.
    destruct (Py.list_remove q l0) as [[|x l']|e] eqn:Hr; [done| |by intros [= <-]].
    apply list_remove_ok in Hr as (l1 & l2 & -> & _ & ->).
    intros [= <-]. apply NoDup_app in Hnd as (Hnd1 & Hdis & Hnd2).
    apply NoDup_cons in Hnd2 as [_ Hnd2]. apply NoDup_app. split_and!; [done| |done].
    intros y Hy Hy2. apply (Hdis y Hy). by apply list_elem_of_further.
  - intros u1 u2 q' H1%registered_unsubscribe_before H2%registered_unsubscribe_before.
    by apply (wf_one_key w Hwf u1 u2 q').
  - rewrite unsubscribe_eq. simpl. intros u' l.
    destruct (decide (u' = u)) as [->|Hne];
      [|rewrite registry_without_ne by done; apply (wf_nonempty w Hwf)].
    rewrite registry_without_eq.
    destruct (subscribers (store w) !! u) as [l0|] eqn:Hu; [|done].
    destruct (Py.list_remove q l0) as [[|x l']|e] eqn:Hr; [done|by intros [= <-]|].
    intros [= <-]. by apply (wf_nonempty w Hwf u).
  - rewrite unsubscribe_eq. simpl. apply (wf_heap_bound w Hwf).
  - rewrite unsubscribe_eq. simpl. apply (wf_queue w Hwf).
  - rewrite unsubscribe_eq. simpl. apply (wf_log w Hwf).
Qed.

(** [publish_event] leaves the registry and the references as they are, and
    never raises. *)
Lemma publish_event_frame event w :
  ∃ o h, publish_event event w =
         (Py.Ok o, with_heap h (with_events (log_after event (events (store w))) w))
         ∧ (∀ q, is_Some (h !! q) ↔ is_Some (heap w !! q)).
Proof.
  rewrite publish_event_eq. simpl.
  destruct (subscribers (store w) !! _) as [qs|].
  - rewrite put_all_eq. simpl. eexists _, _. split; [done|].
    intros q. apply deliver_is_Some.
  - exists Completed, (heap w). split; [|done]. by destruct w as [[??]??].
Qed.

Lemma publish_event_registry event w :
  subscribers (store (publish_event event w).2) = subscribers (store w).
Proof. by destruct (publish_event_frame event w) as (o & h & -> & _). Qed.

Lemma publish_event_log event w :
  events (store (publish_event event w).2) = log_after event (events (store w)).
Proof. by destruct (publish_event_frame event w) as (o & h & -> & _). Qed.

Lemma publish_event_next_ref event w :
  next_ref (publish_event event w).2 = next_ref w.
Proof. by destruct (publish_event_frame event w) as (o & h & -> & _). Qed.

Lemma registered_publish event w u q :
  registered (publish_event event w).2 u q ↔ registered w u q.
Proof. unfold registered. by rewrite publish_event_registry. Qed.

Lemma publish_event_wf event w : World_wf w → World_wf (publish_event event w).2.
Proof.
  intros Hwf.
  pose proof (publish_event_registry event w) as Hreg.
  pose proof (publish_event_next_ref event w) as Hnext.
  pose proof (publish_event_log event w) as Hlog.
  assert (∀ q, is_Some (heap (publish_event event w).2 !! q) ↔ is_Some (heap w !! q))
    as Hdom.
  { by destruct (publish_event_frame event w) as (o & h & -> & ?). }
  split.
  - intros u q Hr%registered_publish. apply Hdom. by apply (wf_allocated w Hwf u).
  - rewrite Hreg. apply (wf_nodup w Hwf).
  - intros u1 u2 q H1%registered_publish H2%registered_publish.
    by apply (wf_one_key w Hwf u1 u2 q).
  - rewrite Hreg. apply (wf_nonempty w Hwf).
  - intros q Hq%Hdom. rewrite Hnext. by apply (wf_heap_bound w Hwf).
  - rewrite publish_event_eq. simpl.
    destruct (subscribers (store w) !! _) as [qs|]; [|apply (wf_queue w Hwf)].
    rewrite put_all_eq. simpl. apply deliver_bounded, (wf_queue w Hwf).
  - rewrite Hlog. apply log_after_length.
Qed.

Lemma queue_get_wf q w e w' : World_wf w → queue_get q w = Some (e, w') → World_wf w'.
Proof.
  intros Hwf. unfold queue_get.
  destruct (heap w !! q) as [Q|] eqn:HQ; [|done].
  destruct (items Q) as [|e0 rest] eqn:Hi; [done|]. intros [= <- <-].
  assert (∀ p, is_Some (<[q := {| maxsize := maxsize Q; items := rest |}]> (heap w) !! p)
               ↔ is_Some (heap w !! p)) as Hdom.
  { intros p. destruct (decide (p = q)) as [->|Hne].
    - rewrite lookup_insert_eq, HQ. split; eauto.
    - by rewrite lookup_insert_ne. }
  split; simpl.
  - intros u p Hr. apply Hdom. by apply (wf_allocated w Hwf u).
  - apply (wf_nodup w Hwf).
  - apply (wf_one_key w Hwf).
  - apply (wf_nonempty w Hwf).
  - intros p Hp%Hdom. by apply (wf_heap_bound w Hwf).
  - intros p P. destruct (decide (p = q)) as [->|Hne].
    + rewrite lookup_insert_eq. intros [= <-]. simpl.
      destruct (wf_queue w Hwf q Q HQ) as [Hm Hl]. rewrite Hi in Hl. simpl in Hl.
      split; [done|lia].
    + rewrite lookup_insert_ne by done. apply (wf_queue w Hwf).
  - apply (wf_log w Hwf).
Qed.

Lemma apply_op_wf o w : World_wf w → World_wf (apply_op o w).
Proof.
  intros Hwf. destruct o as [e|u|u q|q]; simpl.
  - by apply publish_event_wf.
  - by apply subscribe_wf.
  - by apply unsubscribe_wf.
  - destruct (queue_get q w) as [[e w']|] eqn:Hg; [|done].
    by apply (queue_get_wf q w e w').
Qed.

Lemma apply_ops_wf ops w : World_wf w → World_wf (apply_ops ops w).
Proof.
  revert w. induction ops as [|o ops IH]; intros w Hwf; [done|].
  apply IH. by apply apply_op_wf.
Qed.

(** Every world reached from the initial one is well formed. *)
Lemma World_wf_reachable ops : World_wf (apply_ops ops World_init).
Proof. apply apply_ops_wf, World_wf_init. Qed.

(** ** The event log *)

Lemma apply_op_log o w :
  events (store (apply_op o w)) =
  match o with
  | OpPublish e => log_after e (events (store w))
  | _ => events (store w)
  end.
Proof.
  destruct o as [e|u|u q|q]; simpl.
  - apply publish_event_log.
  - by rewrite subscribe_eq.
  - by rewrite unsubscribe_eq.
  - unfold queue_get. destruct (heap w !! q) as [Q|]; [|done].
    by destruct (items Q).
Qed.

Lemma apply_ops_log ops w :
  length (events (store w)) ≤ 1000 →
  events (store (apply_ops ops w)) = last_n 1000 (events (store w) ++ published ops).
Proof.
  revert w. induction ops as [|o ops IH]; intros w Hlen.
  - simpl. rewrite app_nil_r. symmetry. by apply last_n_all.
  - change (apply_ops (o :: ops) w) with (apply_ops ops (apply_op o w)).
    pose proof (apply_op_log o w) as Hlog.
    rewrite IH; rewrite Hlog.
    + destruct o as [e|u|u q|q]; try done.
      rewrite log_after_eq, last_n_app. by rewrite <- app_assoc.
    + destruct o; try done. apply log_after_length.
Qed.

(** C4: whatever calls are made on a fresh store, the log never holds more
    than 1000 events and is the last 1000 of the events published so far,
    in the order of publication; after 1000 + k publishes its first event
    is the one published after the first k. *)
Theorem event_log_keeps_last_1000 (ops : list Op) :
  length (events (store (apply_ops ops World_init))) ≤ 1000
  ∧ events (store (apply_ops ops World_init)) = last_n 1000 (published ops)
  ∧ (∀ k, length (published ops) = 1000 + k →
          events (store (apply_ops ops World_init)) !! 0 = published ops !! k).
Proof.
  assert (events (store (apply_ops ops World_init)) = last_n 1000 (published ops)) as Heq.
  { rewrite apply_ops_log by (simpl; lia). done. }
  split_and!; [|done|].
  - rewrite Heq, last_n_length. lia.
  - intros k Hk. rewrite Heq. unfold last_n. rewrite lookup_drop.
    f_equal. lia.
Qed.

Lemma event_log_keeps_last_1000_witness :
  length (published many_publishes) = 1000 + 5
  ∧ events (store (apply_ops many_publishes World_init)) !! 0
    = Some (sample_event None 5).
Proof.
  split; [vm_compute; reflexivity|].
  rewrite (proj2 (proj2 (event_log_keeps_last_1000 many_publishes)) 5);
    vm_compute; reflexivity.
Defined.

(** ** Reading the log *)

Lemma visible_to_for_recipient r e : visible_to r e = true ↔ for_recipient r e.
Proof.
  unfold visible_to, for_recipient. destruct (user_id e) as [u|].
  - rewrite String.eqb_eq. split; [by intros ->; left|]. by intros [[= ->]|?].
  - split; [by right|done].
Qed.

Lemma filter_visible_to r log :
  List.filter (visible_to r) log = filter (for_recipient r) log.
Proof.
  induction log as [|e log IH]; [done|]. simpl. rewrite filter_cons.
  destruct (visible_to r e) eqn:Hv.
  - rewrite decide_True by (by apply visible_to_for_recipient). by rewrite IH.
  - rewrite decide_False; [done|]. intros Hf%visible_to_for_recipient. congruence.
Qed.

Lemma filter_none r log :
  (∀ e, e ∈ log → ¬ for_recipient r e) → filter (for_recipient r) log = [].
Proof.
  induction log as [|e log IH]; intros Hnone; [done|].
  rewrite filter_cons, decide_False by apply Hnone, list_elem_of_here.
  apply IH. intros e' He'. by apply Hnone, list_elem_of_further.
Qed.

Lemma get_recent_events_eq r limit w :
  get_recent_events r limit w =
  (Py.Ok (Py.slice_from (- limit) (filter (for_recipient r) (events (store w)))), w).
Proof.
  unfold get_recent_events, bind, get_events, ret. simpl.
  by rewrite filter_visible_to.
Qed.

(** C5: for a limit of at least 1 the snapshot is the last [limit] events
    of the log that are for the recipient or have no recipient, in the
    order of the log; it is empty when no event matches; the world is
    returned as it was. *)
Theorem get_recent_events_spec (w : World) (r : string) (limit : Z) :
  (1 ≤ limit)%Z →
  get_recent_events r limit w
  = (Py.Ok (RecentFor r (Z.to_nat limit) (events (store w))), w)
  ∧ RecentFor r (Z.to_nat limit) (events (store w)) `sublist_of` events (store w)
  ∧ (∀ e, e ∈ RecentFor r (Z.to_nat limit) (events (store w)) → for_recipient r e)
  ∧ ((∀ e, e ∈ events (store w) → ¬ for_recipient r e) →
     get_recent_events r limit w = (Py.Ok [], w)).
Proof.
  intros Hlim.
  assert (get_recent_events r limit w
          = (Py.Ok (RecentFor r (Z.to_nat limit) (events (store w))), w)) as Heq.
  { rewrite get_recent_events_eq. unfold RecentFor.
    rewrite <- (slice_from_neg (Z.to_nat limit)) by lia.
    by rewrite Z2Nat.id by lia. }
  split_and!; [done| | |].
  - unfold RecentFor, last_n. etrans; [apply sublist_drop|apply sublist_filter].
  - intros e He. unfold RecentFor, last_n in He.
    pose proof (elem_of_sublist _ _ _ He (sublist_drop _ _)) as Hf.
    by apply list_elem_of_filter in Hf as [? _].
  - intros Hnone. rewrite Heq. do 2 f_equal. unfold RecentFor.
    replace (filter (for_recipient r) (events (store w))) with (@nil NotificationEvent);
      [done|].
    symmetry. by apply filter_none.
Qed.

Lemma get_recent_events_spec_witness :
  (1 ≤ 10)%Z
  ∧ get_recent_events "u1" 10 (publish_event (sample_event (Some "u1") 7) World_init).2
    = (Py.Ok [sample_event (Some "u1") 7],
       (publish_event (sample_event (Some "u1") 7) World_init).2).
Proof.
  split; [lia|].
  rewrite (proj1 (get_recent_events_spec
                    (publish_event (sample_event (Some "u1") 7) World_init).2
                    "u1" 10 ltac:(lia))).
  vm_compute. reflexivity.
Defined.

(** C9: with limit 0 the snapshot is every matching event of the log, and
    with a negative limit [-k] it is the matching events without the first
    [k] of them. *)
Theorem get_recent_events_nonpositive_limit (w : World) (r : string) :
  get_recent_events r 0 w = (Py.Ok (filter (for_recipient r) (events (store w))), w)
  ∧ ∀ k : nat,
      get_recent_events r (- Z.of_nat k) w
      = (Py.Ok (drop k (filter (for_recipient r) (events (store w)))), w).
Proof.
  assert (∀ k : nat,
      get_recent_events r (- Z.of_nat k) w
      = (Py.Ok (drop k (filter (for_recipient r) (events (store w)))), w)) as Hk.
  { intros k. rewrite get_recent_events_eq, Z.opp_involutive.
    by rewrite slice_from_nonneg. }
  split; [|done]. apply (Hk 0).
Qed.

(** ** Unsubscribing *)

Lemma unsubscribe_not_registered u q w :
  ¬ registered w u q → unsubscribe u q w = (Py.Ok tt, w).
Proof.
  intros Hnr. rewrite unsubscribe_eq.
  assert (registry_without u q (subscribers (store w)) = subscribers (store w)) as ->.
  { unfold registry_without.
    destruct (subscribers (store w) !! u) as [l|] eqn:Hu; [|done].
    rewrite list_remove_not_in; [done|].
    intros Hq. apply Hnr. by exists l. }
  by rewrite with_subscribers_id.
Qed.

(** C6: [unsubscribe] never raises; on a queue that is not registered under
    the user, so also on a user without an entry, it changes nothing; the
    entry of a user whose only queue is removed is deleted. In a world built
    by the store's methods the removed queue is no longer registered under
    the user, so a second call changes nothing, and no entry is left with an
    empty list. *)
Theorem unsubscribe_idempotent (w : World) (u : string) (q : nat) :
  (unsubscribe u q w).1 = Py.Ok tt
  ∧ (¬ registered w u q → unsubscribe u q w = (Py.Ok tt, w))
  ∧ (subscribers (store w) !! u = Some [q] →
     subscribers (store (unsubscribe u q w).2) !! u = None)
  ∧ (World_wf w →
     ¬ registered (unsubscribe u q w).2 u q
     ∧ unsubscribe u q (unsubscribe u q w).2 = (Py.Ok tt, (unsubscribe u q w).2)
     ∧ ∀ u' l, subscribers (store (unsubscribe u q w).2) !! u' = Some l → l ≠ []).
Proof.
  split_and!.
  - by rewrite unsubscribe_eq.
  - apply unsubscribe_not_registered.
  - intros Hu. rewrite unsubscribe_eq. simpl. rewrite registry_without_eq, Hu.
    simpl. by rewrite decide_True.
  - intros Hwf.
    assert (¬ registered (unsubscribe u q w).2 u q) as Hgone.
    { apply not_registered_unsubscribe. apply (wf_nodup w Hwf). }
    split_and!; [done|by apply unsubscribe_not_registered|].
    apply (wf_nonempty _ (unsubscribe_wf u q w Hwf)).
Qed.

Lemma unsubscribe_idempotent_witness :
  World_wf world_u1
  ∧ subscribers (store world_u1) !! "u1" = Some [0]
  ∧ (unsubscribe "u1" 0 world_u1).1 = Py.Ok tt
  ∧ subscribers (store (unsubscribe "u1" 0 world_u1).2) !! "u1" = None
  ∧ unsubscribe "u1" 0 (unsubscribe "u1" 0 world_u1).2
    = (Py.Ok tt, (unsubscribe "u1" 0 world_u1).2).
Proof.
  assert (World_wf world_u1) as Hwf by apply (World_wf_reachable [OpSubscribe "u1"]).
  assert (subscribers (store world_u1) !! "u1" = Some [0]) as Hu
    by (vm_compute; reflexivity).
  destruct (unsubscribe_idempotent world_u1 "u1" 0) as (H1 & _ & H3 & H4).
  destruct (H4 Hwf) as (_ & Htwice & _).
  split_and!; [exact Hwf|exact Hu|exact H1|exact (H3 Hu)|exact Htwice].
Defined.

(** ** Routing of a published event *)

(** A queue that is not in the list of the routing key is not touched. *)
Lemma publish_event_other_queue event w q :
  ¬ registered w (Py.or_ (user_id event) "global") q →
  heap (publish_event event w).2 !! q = heap w !! q.
Proof.
  intros Hnr. rewrite publish_event_eq. simpl.
  destruct (subscribers (store w) !! _) as [qs|] eqn:Hqs; [|done].
  rewrite put_all_eq. simpl. apply deliver_other.
  intros Hq. apply Hnr. by exists qs.
Qed.

Lemma publish_event_other_key event w u q :
  World_wf w → registered w u q → u ≠ Py.or_ (user_id event) "global" →
  heap (publish_event event w).2 !! q = heap w !! q.
Proof.
  intros Hwf Hr Hne. apply publish_event_other_queue.
  intros Hr'. apply Hne. by apply (wf_one_key w Hwf _ _ q).
Qed.

(** A publish that runs to its end has put the event into every queue of
    the routing key. *)
Lemma publish_event_delivered event w q Q :
  World_wf w → (publish_event event w).1 = Py.Ok Completed →
  registered w (Py.or_ (user_id event) "global") q → heap w !! q = Some Q →
  heap (publish_event event w).2 !! q = Some (put_nowait event Q).
Proof.
  intros Hwf. rewrite publish_event_eq. simpl. intros Hc (qs & Hqs & Hq) HQ.
  rewrite Hqs in *. rewrite put_all_eq in *. simpl in *.
  injection Hc as Hc.
  by apply (deliver_completed event qs (heap w) (wf_nodup w Hwf _ _ Hqs) Hc q Q).
Qed.

(** Without a full queue under the routing key, and so with no subscriber
    at all, the publish runs to its end. *)
Lemma publish_event_completes event w :
  World_wf w →
  (∀ q, registered w (Py.or_ (user_id event) "global") q → ¬ is_full w q) →
  (publish_event event w).1 = Py.Ok Completed.
Proof.
  intros Hwf Hnf. rewrite publish_event_eq. simpl.
  destruct (subscribers (store w) !! _) as [qs|] eqn:Hqs; [|done].
  rewrite put_all_eq. simpl. f_equal.
  apply deliver_none_full; [by apply (wf_nodup w Hwf _ _ Hqs)|].
  intros q Q Hq HQ. destruct (full Q) eqn:Hf; [|done].
  exfalso. apply (Hnf q); [by exists qs|]. by exists Q.
Qed.

Lemma last_n_snoc {A} (n : nat) (l : list A) (x : A) :
  0 < n → ∃ l', last_n n (l ++ [x]) = l' ++ [x].
Proof.
  intros Hn. unfold last_n. rewrite length_app. simpl.
  exists (drop (length l + 1 - n) l). rewrite skipn_app.
  by replace (length l + 1 - n - length l) with 0 by lia.
Qed.

(** The event just published is in the snapshot of every user it is for,
    whenever the limit is not negative. *)
Lemma published_event_in_snapshot event w r limit :
  for_recipient r event → (0 ≤ limit)%Z →
  ∃ evs, get_recent_events r limit (publish_event event w).2
         = (Py.Ok evs, (publish_event event w).2)
         ∧ event ∈ evs.
Proof.
  intros Hfor Hlim. rewrite get_recent_events_eq. eexists. split; [done|].
  rewrite publish_event_log, log_after_eq.
  destruct (last_n_snoc 1000 (events (store w)) event) as [l' ->]; [lia|].
  rewrite filter_app, filter_cons, decide_True, filter_nil by done.
  destruct (decide (limit = 0%Z)) as [->|Hne].
  - change (Py.slice_from (- 0)%Z ?l) with (Py.slice_from (Z.of_nat 0) l).
    rewrite slice_from_nonneg. simpl. apply elem_of_app. right. apply list_elem_of_here.
  - replace limit with (Z.of_nat (Z.to_nat limit)) by lia.
    rewrite slice_from_neg by lia.
    destruct (last_n_snoc (Z.to_nat limit) (filter (for_recipient r) l') event)
      as [l'' ->]; [lia|].
    apply elem_of_app. right. apply list_elem_of_here.
Qed.

(** C10: an event whose recipient is the empty string is routed under
    ["global"]: a publish touches no queue outside the list of ["global"],
    so none of the list of [""]; when it runs to its end every queue of
    ["global"] has received the event; and the snapshot of [""] with a
    limit that is not negative contains the event. *)
Theorem empty_recipient_routed_as_global (w : World) (event : NotificationEvent)
    (limit : Z) :
  World_wf w → user_id event = Some "" → (0 ≤ limit)%Z →
  Py.or_ (user_id event) "global" = "global"
  ∧ (∀ q, ¬ registered w "global" q →
          heap (publish_event event w).2 !! q = heap w !! q)
  ∧ (∀ q, registered w "" q →
          heap (publish_event event w).2 !! q = heap w !! q)
  ∧ ((publish_event event w).1 = Py.Ok Completed →
     ∀ q Q, registered w "global" q → heap w !! q = Some Q →
            heap (publish_event event w).2 !! q = Some (put_nowait event Q))
  ∧ (∃ evs, get_recent_events "" limit (publish_event event w).2
            = (Py.Ok evs, (publish_event event w).2)
            ∧ event ∈ evs).
Proof.
  intros Hwf Hu Hlim.
  assert (Py.or_ (user_id event) "global" = "global") as Hkey by (by rewrite Hu).
  split_and!.
  - done.
  - intros q Hq. apply publish_event_other_queue. by rewrite Hkey.
  - intros q Hq. apply (publish_event_other_key event w ""); [done|done|].
    by rewrite Hkey.
  - intros Hc q Q Hq HQ. apply publish_event_delivered; [done|done| |done].
    by rewrite Hkey.
  - apply published_event_in_snapshot; [|done]. by left.
Qed.

Lemma empty_recipient_routed_as_global_witness :
  World_wf world_two_keys
  ∧ user_id (sample_event (Some "") 3) = Some ""
  ∧ (0 ≤ 5)%Z
  ∧ buffered (publish_event (sample_event (Some "") 3) world_two_keys).2 0 = []
  ∧ buffered (publish_event (sample_event (Some "") 3) world_two_keys).2 1
    = [sample_event (Some "") 3]
  ∧ ∃ evs, get_recent_events "" 5 (publish_event (sample_event (Some "") 3) world_two_keys).2
           = (Py.Ok evs, (publish_event (sample_event (Some "") 3) world_two_keys).2)
           ∧ sample_event (Some "") 3 ∈ evs.
Proof.
  assert (World_wf world_two_keys) as Hwf by apply World_wf_reachable.
  destruct (empty_recipient_routed_as_global world_two_keys
              (sample_event (Some "") 3) 5 Hwf eq_refl ltac:(lia))
    as (_ & _ & H0 & H1 & Hsnap).
  split_and!; [done|done|lia| | |done].
  - unfold buffered. rewrite (H0 0); [vm_compute; reflexivity|].
    exists [0]. split; [vm_compute; reflexivity|apply list_elem_of_here].
  - unfold buffered.
    rewrite (H1 ltac:(vm_compute; reflexivity) 1 (Queue_init 100));
      [vm_compute; reflexivity| |vm_compute; reflexivity].
    exists [1]. split; [vm_compute; reflexivity|apply list_elem_of_here].
Defined.

(** C1: a publish touches no queue registered under a key other than its
    routing key, which is the recipient, or ["global"] for an event without
    recipient: an event for another user does not reach the queue, and an
    event without recipient reaches no queue registered under a user other
    than ["global"]. *)
Theorem publish_reaches_routing_key_only (w : World) (event : NotificationEvent)
    (u : string) (q : nat) :
  World_wf w → registered w u q →
  (∀ r, user_id event = Some r → r ≠ "" → r ≠ u →
        heap (publish_event event w).2 !! q = heap w !! q)
  ∧ (user_id event = None → u ≠ "global" →
     heap (publish_event event w).2 !! q = heap w !! q).
Proof.
  intros Hwf Hr. split.
  - intros r Hu Hne Hru. apply (publish_event_other_key event w u); [done|done|].
    rewrite Hu. unfold Py.or_, Py.truthy.
    destruct (String.eqb_spec r ""); [done|]. simpl. congruence.
  - intros Hu Hg. apply (publish_event_other_key event w u); [done|done|].
    by rewrite Hu.
Qed.

Lemma publish_reaches_routing_key_only_witness :
  World_wf world_u1
  ∧ registered world_u1 "u1" 0
  ∧ subscribe "u1" World_init = (Py.Ok 0, world_u1)
  ∧ buffered (publish_event (sample_event (Some "u2") 1) world_u1).2 0 = []
  ∧ buffered (publish_event (sample_event None 2) world_u1).2 0 = [].
Proof.
  assert (World_wf world_u1) as Hwf by apply (World_wf_reachable [OpSubscribe "u1"]).
  assert (registered world_u1 "u1" 0) as Hr.
  { exists [0]. split; [vm_compute; reflexivity|apply list_elem_of_here]. }
  split_and!; [done|done|vm_compute; reflexivity| |]; unfold buffered.
  - rewrite (proj1 (publish_reaches_routing_key_only world_u1
                      (sample_event (Some "u2") 1) "u1" 0 Hwf Hr) "u2");
      [vm_compute; reflexivity|done|done|done].
  - rewrite (proj2 (publish_reaches_routing_key_only world_u1
                      (sample_event None 2) "u1" 0 Hwf Hr));
      [vm_compute; reflexivity|done|done].
Defined.

(** C2: with a full queue in the list of the routing key, the publish is
    suspended in the [put] on the first full queue of the list; the queues
    after it in the list have not received the event, while the log already
    holds it. *)
Theorem publish_suspends_at_full_queue (w : World) (event : NotificationEvent)
    (pre : list nat) (q : nat) (rest : list nat) :
  World_wf w →
  subscribers (store w) !! Py.or_ (user_id event) "global" = Some (pre ++ q :: rest) →
  is_full w q → (∀ p, p ∈ pre → ¬ is_full w p) →
  (publish_event event w).1 = Py.Ok (Suspended q rest)
  ∧ (∀ q', q' ∈ q :: rest → heap (publish_event event w).2 !! q' = heap w !! q')
  ∧ event ∈ events (store (publish_event event w).2).
Proof.
  intros Hwf Hqs (Q & HQ & Hfull) Hpre.
  assert (event ∈ events (store (publish_event event w).2)) as Hlog.
  { rewrite publish_event_log, log_after_eq.
    destruct (last_n_snoc 1000 (events (store w)) event) as [l' ->]; [lia|].
    apply elem_of_app. right. apply list_elem_of_here. }
  split_and!; [| |done]; rewrite publish_event_eq; simpl; rewrite Hqs, put_all_eq; simpl.
  - f_equal. eapply deliver_suspends; [by apply (wf_nodup w Hwf _ _ Hqs)| |done|done].
    intros p P Hp HP. destruct (full P) eqn:Hf; [|done].
    exfalso. apply (Hpre p Hp). by exists P.
  - eapply deliver_suspends; [by apply (wf_nodup w Hwf _ _ Hqs)| |done|done].
    intros p P Hp HP. destruct (full P) eqn:Hf; [|done].
    exfalso. apply (Hpre p Hp). by exists P.
Qed.

Lemma publish_suspends_at_full_queue_witness :
  World_wf world_slow_reader
  ∧ subscribers (store world_slow_reader) !! "u1" = Some [0; 1]
  ∧ is_full world_slow_reader 0
  ∧ buffered world_slow_reader 1 = []
  ∧ (publish_event (sample_event (Some "u1") 500) world_slow_reader).1
    = Py.Ok (Suspended 0 [1])
  ∧ buffered (publish_event (sample_event (Some "u1") 500) world_slow_reader).2 1 = [].
Proof.
  assert (World_wf world_slow_reader) as Hwf by apply World_wf_reachable.
  assert (subscribers (store world_slow_reader) !! "u1" = Some [0; 1]) as Hqs
    by (vm_compute; reflexivity).
  assert (is_full world_slow_reader 0) as Hfull.
  { eexists. split; [vm_compute; reflexivity|vm_compute; reflexivity]. }
  destruct (publish_suspends_at_full_queue world_slow_reader
              (sample_event (Some "u1") 500) [] 0 [1] Hwf Hqs Hfull)
    as (Hs & Hrest & _).
  { intros p Hp. destruct (proj1 (elem_of_nil p) Hp). }
  split_and!; [exact Hwf|exact Hqs|exact Hfull|vm_compute; reflexivity|exact Hs|].
  unfold buffered. rewrite (Hrest 1); [vm_compute; reflexivity|].
  apply list_elem_of_further, list_elem_of_here.
Defined.

(** ** Event identifiers *)

Lemma NotificationType_str_prefix t1 t2 s1 s2 :
  NotificationType_str t1 +:+ "_" +:+ s1 = NotificationType_str t2 +:+ "_" +:+ s2 →
  t1 = t2 ∧ s1 = s2.
Proof.
  destruct t1, t2;
    cbn [NotificationType_str NotificationType_name String.append];
    intros H; by simplify_eq.
Qed.

(** Two events of one type built at the same clock reading in milliseconds
    have the same identifier, whatever else differs between them. *)
Lemma event_id_reused :
  sample_event (Some "u1") 1714564800123 ≠ sample_event (Some "u2") 1714564800123
  ∧ event_id (sample_event (Some "u1") 1714564800123)
    = event_id (sample_event (Some "u2") 1714564800123).
Proof. split; [discriminate|reflexivity]. Qed.

(** C3, as the code has it: the identifiers of two constructed events are
    equal exactly when the events have the same type and were built at the
    same clock reading in milliseconds; events that differ in one of the
    two have distinct identifiers. *)
Theorem event_id_equal_iff (t1 t2 : NotificationType) (d1 d2 : Py.value)
    (u1 u2 c1 c2 : option string) (iso1 iso2 : string) (ms1 ms2 : Z) :
  event_id (NotificationEvent_init t1 d1 u1 c1 iso1 ms1)
  = event_id (NotificationEvent_init t2 d2 u2 c2 iso2 ms2)
  ↔ t1 = t2 ∧ ms1 = ms2.
Proof.
  cbn [event_id NotificationEvent_init]. split.
  - intros [-> Hms]%NotificationType_str_prefix. split; [done|].
    by apply (inj pretty).
  - by intros [-> ->].
Qed.

(** ** The streaming generator *)

Lemma queue_get_empty q w : buffered w q = [] → queue_get q w = None.
Proof.
  unfold buffered, queue_get. destruct (heap w !! q) as [Q|]; [|done].
  by intros ->.
Qed.

(** With nothing arriving, the wait ends by its timeout at the deadline,
    whatever the other tasks did before it. *)
Lemma await_get_quiet q now deadline tl w :
  quiet q tl w →
  ∃ k, await_get q now deadline tl w
       = (deadline, TimeoutElapses, drop k tl,
          apply_ops (map snd (take k tl)) w)
       ∧ quiet q (drop k tl) (apply_ops (map snd (take k tl)) w).
Proof.
  revert now w. induction tl as [|[t o] tl IH]; intros now w Hquiet.
  - exists 0. pose proof (Hquiet 0) as Hb. simpl in Hb.
    cbn [await_get]. rewrite Hb. by split.
  - pose proof (Hquiet 0) as Hb. simpl in Hb.
    cbn [await_get]. rewrite Hb.
    destruct (t <? deadline)%Z eqn:Ht.
    + destruct (IH (Z.max now t) (apply_op o w)) as (k & Heq & Hq').
      { intros k. exact (Hquiet (S k)). }
      exists (S k). by split.
    + exists 0. by split.
Qed.

Lemma stream_turn_quiet user q since latency iso tl w :
  quiet q tl w →
  ∃ k, stream_turn user q since latency iso tl w
       = Some (Waiting q (since + heartbeat_timeout_ms + latency),
               [((since + heartbeat_timeout_ms)%Z,
                 Yielded (heartbeat_msg (clock_at (since + heartbeat_timeout_ms) iso)));
                ((since + heartbeat_timeout_ms + latency)%Z, Awaits)],
               drop k tl, apply_ops (map snd (take k tl)) w)
       ∧ quiet q (drop k tl) (apply_ops (map snd (take k tl)) w).
Proof.
  intros Hquiet.
  destruct (await_get_quiet q since (since + heartbeat_timeout_ms) tl w Hquiet)
    as (k & Heq & Hq').
  exists k. split; [|exact Hq'].
  unfold stream_turn. rewrite Heq. cbn [gen_step clock_at loop_ms].
  rewrite decide_True by lia. by cbn [loop_handlers gen_queue gen_step loop_ms].
Qed.

Lemma stream_turns_quiet user latencies q since iso tl w :
  quiet q tl w →
  ∃ k, stream_turns user latencies (Waiting q since) iso tl w
       = Some (Waiting q (idle_since latencies since),
               idle_chunks latencies since iso,
               drop k tl, apply_ops (map snd (take k tl)) w).
Proof.
  revert since tl w. induction latencies as [|latency rest IH];
    intros since tl w Hquiet.
  - by exists 0.
  - destruct (stream_turn_quiet user q since latency iso tl w Hquiet)
      as (k1 & Heq1 & Hq1).
    destruct (IH (since + heartbeat_timeout_ms + latency)%Z _ _ Hq1) as (k2 & Heq2).
    exists (k1 + k2). cbn [stream_turns]. rewrite Heq1, Heq2.
    cbn [idle_chunks idle_since app]. do 2 f_equal.
    + f_equal. by rewrite drop_drop.
    + unfold apply_ops. by rewrite <-fold_left_app, <-map_app, take_take_drop.
Qed.

(** Between two heartbeats that follow each other lie the 30 seconds of the
    wait and the time the consumer took to ask for the next chunk. *)
Lemma idle_chunks_gap latencies since iso i t1 t2 :
  yield_times (idle_chunks latencies since iso) !! i = Some t1 →
  yield_times (idle_chunks latencies since iso) !! S i = Some t2 →
  ∃ latency, latencies !! i = Some latency
             ∧ t2 = (t1 + heartbeat_timeout_ms + latency)%Z.
Proof.
  revert since i. induction latencies as [|latency rest IH]; intros since i; [done|].
  destruct i as [|i].
  - destruct rest as [|latency' rest]; [done|].
    simpl. intros [= <-] [= <-]. exists latency. split; [done|].
    unfold heartbeat_timeout_ms. lia.
  - intros H1 H2. by apply (IH (since + heartbeat_timeout_ms + latency)%Z i).
Qed.

(** C8, as the code has it: a stream waits on its queue from the loop time
    [since] at which the consumer asked for the next chunk. While nothing
    arrives in the queue, whatever calls the other tasks make, for every
    consumer (its latencies being the times it takes to ask for the next
    chunk): each wait ends by its timeout exactly 30 seconds after it began,
    the consumer is given the heartbeat chunk with the wall clock of that
    instant, and the stream waits again, still holding its queue, the world
    changed by the other tasks' calls alone; the first heartbeat comes 30
    seconds after the wait began and two heartbeats that follow each other
    are 30 seconds plus the consumer's latency apart. A wait on an empty
    queue cannot end with an event, nor by its timeout earlier than 30
    seconds after it began. *)
Theorem heartbeat_each_idle_wait (user : string) (q : nat) (latencies : list Z)
    (since : Z) (iso : Z → string) (tl : list (Z * Op)) (w : World) :
  quiet q tl w →
  (∃ k, stream_turns user latencies (Waiting q since) iso tl w
        = Some (Waiting q (idle_since latencies since),
                idle_chunks latencies since iso,
                drop k tl, apply_ops (map snd (take k tl)) w))
  ∧ (∀ latency rest, latencies = latency :: rest →
       idle_chunks latencies since iso !! 0
       = Some ((since + 30000)%Z,
               Yielded (Py.VDict [("type", Py.VStr "heartbeat");
                                  ("timestamp", Py.VStr (iso (since + 30000)%Z))])))
  ∧ (∀ i t1 t2,
       yield_times (idle_chunks latencies since iso) !! i = Some t1 →
       yield_times (idle_chunks latencies since iso) !! S i = Some t2 →
       ∃ latency, latencies !! i = Some latency ∧ t2 = (t1 + 30000 + latency)%Z)
  ∧ (∀ c, gen_step user c (Waiting q since) GetReturns w = None)
  ∧ (∀ c, (loop_ms c < since + 30000)%Z →
          gen_step user c (Waiting q since) TimeoutElapses w = None).
Proof.
  intros Hquiet. split_and!.
  - by apply stream_turns_quiet.
  - by intros latency rest ->.
  - intros i t1 t2. apply idle_chunks_gap.
  - intros c. pose proof (Hquiet 0) as Hb. simpl in Hb.
    cbn [gen_step]. by rewrite queue_get_empty.
  - intros c Hc. cbn [gen_step]. unfold heartbeat_timeout_ms.
    by rewrite decide_False by lia.
Qed.

Lemma heartbeat_each_idle_wait_witness :
  quiet 0 sample_timeline world_u1
  ∧ ∃ k, stream_turns "u1" [5%Z; 0%Z] (Waiting 0 0) sample_iso sample_timeline world_u1
         = Some (Waiting 0 60005,
                 [(30000%Z, Yielded (Py.VDict [("type", Py.VStr "heartbeat");
                                               ("timestamp", Py.VStr "2024-05-01T12:00:30")]));
                  (30005%Z, Awaits);
                  (60005%Z, Yielded (Py.VDict [("type", Py.VStr "heartbeat");
                                               ("timestamp", Py.VStr "2024-05-01T12:01:00.005000")]));
                  (60005%Z, Awaits)],
                 drop k sample_timeline,
                 apply_ops (map snd (take k sample_timeline)) world_u1).
Proof.
  assert (quiet 0 sample_timeline world_u1) as Hquiet.
  { intros k. destruct k as [|[|k]]; vm_compute; reflexivity. }
  split; [exact Hquiet|].
  exact (proj1 (heartbeat_each_idle_wait "u1" 0 [5%Z; 0%Z] 0 sample_iso
                  sample_timeline world_u1 Hquiet)).
Defined.

(** C8, as the spec has it, fails for a consumer that takes 5 ms to ask for
    the next chunk: on a stream to which nothing is ever published the
    heartbeats come at 30 s and at 60.005 s, so the 30 seconds that follow
    the first heartbeat pass without one. *)
Lemma heartbeat_later_than_30s :
  quiet 0 [] world_u1
  ∧ stream_turns "u1" [5%Z; 5%Z] (Waiting 0 0) sample_iso [] world_u1
    = Some (Waiting 0 60010,
            [(30000%Z, Yielded (Py.VDict [("type", Py.VStr "heartbeat");
                                          ("timestamp", Py.VStr "2024-05-01T12:00:30")]));
             (30005%Z, Awaits);
             (60005%Z, Yielded (Py.VDict [("type", Py.VStr "heartbeat");
                                          ("timestamp", Py.VStr "2024-05-01T12:01:00.005000")]));
             (60010%Z, Awaits)],
            [], world_u1)
  ∧ (∀ st out tl w,
       stream_turns "u1" [5%Z; 5%Z] (Waiting 0 0) sample_iso [] world_u1
       = Some (st, out, tl, w) →
       ¬ ∃ t, t ∈ yield_times out ∧ (30000 < t ≤ 30000 + 30000)%Z).
Proof.
  split_and!.
  - intros k. destruct k; vm_compute; reflexivity.
  - vm_compute. reflexivity.
  - intros st out tl w Hrun (t & Ht & Hlt).
    assert (yield_times out = [30000%Z; 60005%Z]) as Hbeats.
    { vm_compute in Hrun. injection Hrun as <- <- <- <-. vm_compute. reflexivity. }
    rewrite Hbeats in Ht.
    apply elem_of_cons in Ht as [->|Ht]; [lia|].
    apply elem_of_cons in Ht as [->|Ht]; [lia|].
    by apply elem_of_nil in Ht.
Qed.

(** *** Every exit runs the [finally] clause *)

Lemma finally_unsubscribe_eq user q obs w :
  finally_unsubscribe user q obs w = (Finished, obs, (unsubscribe user q w).2).
Proof. unfold finally_unsubscribe. by rewrite unsubscribe_eq. Qed.

Lemma loop_handlers_cases user q c e w :
  loop_handlers user q c e w = (AtHeartbeat q, Yielded (heartbeat_msg c), w)
  ∨ ∃ obs, loop_handlers user q c e w = (Finished, obs, (unsubscribe user q w).2).
Proof.
  destruct e; simpl; rewrite ?finally_unsubscribe_eq; eauto.
Qed.

(** A step of a generator holding [q] either keeps [q], or ends the
    generator after running [unsubscribe user q]; it acts on the world of
    the step or, when it first took an event out of the queue, on the world
    after that. *)
Lemma gen_step_holding user c st i w st' obs w' q :
  gen_queue st = Some q → gen_step user c st i w = Some (st', obs, w') →
  ∃ w0, (w0 = w ∨ ∃ e, queue_get q w = Some (e, w0))
        ∧ ((gen_queue st' = Some q ∧ w' = w0)
           ∨ (st' = Finished ∧ unsubscribe user q w0 = (Py.Ok tt, w'))).
Proof.
  intros Hq Hstep.
  assert (∀ w0 st1 obs1 w1 e,
            loop_handlers user q c e w0 = (st1, obs1, w1) →
            (gen_queue st1 = Some q ∧ w1 = w0)
            ∨ (st1 = Finished ∧ unsubscribe user q w0 = (Py.Ok tt, w1))) as Hloop.
  { intros w0 st1 obs1 w1 e He.
    destruct (loop_handlers_cases user q c e w0) as [Hh|[obs2 Hh]];
      rewrite Hh in He; injection He as <- <- <-; [by left|].
    right. split; [done|]. by rewrite unsubscribe_eq. }
  assert (∀ w0 obs0 st1 obs1 w1,
            finally_unsubscribe user q obs0 w0 = (st1, obs1, w1) →
            st1 = Finished ∧ unsubscribe user q w0 = (Py.Ok tt, w1)) as Hfin.
  { intros w0 obs0 st1 obs1 w1. rewrite finally_unsubscribe_eq.
    intros [= <- <- <-]. split; [done|]. by rewrite unsubscribe_eq. }
  destruct st as [|q0|q0 since|q0|q0|]; simpl in Hq; try done;
    injection Hq as ->; destruct i; cbn [gen_step] in Hstep; try done.
  - injection Hstep as <- <- <-. exists w. eauto.
  - injection Hstep as Hstep. apply Hfin in Hstep. exists w. eauto.
  - destruct (queue_get q w) as [[event w0]|] eqn:Hget; [|done].
    exists w0. split; [eauto|].
    destruct (Py.serializable (to_dict event)).
    + injection Hstep as <- <- <-. by left.
    + injection Hstep as Hstep. by apply (Hloop w0 _ _ _ Py.TypeError) in Hstep.
  - case_decide; [|done]. injection Hstep as <- <- <-. exists w. eauto.
  - injection Hstep as Hstep. apply Hloop in Hstep. exists w. eauto.
  - injection Hstep as <- <- <-. exists w. eauto.
  - injection Hstep as Hstep. apply Hloop in Hstep. exists w. eauto.
  - injection Hstep as <- <- <-. exists w. eauto.
  - injection Hstep as Hstep. apply Hfin in Hstep. exists w. eauto.
Qed.

Lemma queue_get_frame q w e w0 :
  queue_get q w = Some (e, w0) → store w0 = store w ∧ next_ref w0 = next_ref w.
Proof.
  unfold queue_get. destruct (heap w !! q) as [Q|]; [|done].
  destruct (items Q); [done|]. by intros [= <- <-].
Qed.

Lemma registered_queue_get q w e w0 u p :
  queue_get q w = Some (e, w0) → registered w0 u p ↔ registered w u p.
Proof. intros [Hs _]%queue_get_frame. unfold registered. by rewrite Hs. Qed.

Lemma apply_op_next_ref o w : next_ref w ≤ next_ref (apply_op o w).
Proof.
  destruct o as [e|u|u q|q]; simpl.
  - by rewrite publish_event_next_ref.
  - rewrite subscribe_eq. simpl. lia.
  - by rewrite unsubscribe_eq.
  - destruct (queue_get q w) as [[e w0]|] eqn:Hg; [|done].
    apply queue_get_frame in Hg as [_ ->]. done.
Qed.

(** The other users of the store register only queues allocated after the
    call. *)
Lemma registered_apply_op o w u q :
  World_wf w → q < next_ref w → registered (apply_op o w) u q → registered w u q.
Proof.
  intros Hwf Hlt. destruct o as [e|u0|u0 q0|q0]; simpl.
  - by intros ?%registered_publish.
  - intros [?|[_ ->]]%registered_subscribe; [done|lia].
  - apply registered_unsubscribe_before.
  - destruct (queue_get q0 w) as [[e w0]|] eqn:Hg; [|done].
    by intros ?%(registered_queue_get q0 w e w0).
Qed.

Lemma gen_inv_env user st o w : gen_inv user st w → gen_inv user st (apply_op o w).
Proof.
  intros [Hwf Hq]. split; [by apply apply_op_wf|].
  intros q Hst. destruct (Hq q Hst) as [Hlt Hu].
  pose proof (apply_op_next_ref o w). split; [lia|].
  intros u Hr. by apply Hu, (registered_apply_op o).
Qed.

Lemma released_env q o w : released q w → released q (apply_op o w).
Proof.
  intros (Hwf & Hlt & Hnr). pose proof (apply_op_next_ref o w).
  split_and!; [by apply apply_op_wf|lia|].
  intros u Hr. by apply (Hnr u), (registered_apply_op o).
Qed.

(** The [finally] clause of a generator that holds [q] alone leaves [q]
    registered nowhere. *)
Lemma unsubscribe_released user q w w' :
  World_wf w → q < next_ref w → (∀ u, registered w u q → u = user) →
  unsubscribe user q w = (Py.Ok tt, w') → released q w'.
Proof.
  intros Hwf Hlt Hu Hun.
  assert (w' = (unsubscribe user q w).2) as -> by (by rewrite Hun).
  split_and!.
  - by apply unsubscribe_wf.
  - by rewrite unsubscribe_eq.
  - intros u Hr. destruct (decide (u = user)) as [->|Hne].
    + revert Hr. apply not_registered_unsubscribe, (wf_nodup w Hwf).
    + by apply Hne, Hu, (registered_unsubscribe_before user q w).
Qed.

Lemma gen_step_inv user c st i w st' obs w' :
  gen_inv user st w → gen_step user c st i w = Some (st', obs, w') →
  gen_inv user st' w'
  ∧ ∀ q, gen_queue st = Some q →
         gen_queue st' = Some q ∨ (st' = Finished ∧ released q w').
Proof.
  intros [Hwf Hq] Hstep.
  destruct (gen_queue st) as [q|] eqn:Hst.
  - destruct (Hq q eq_refl) as [Hlt Hu].
    destruct (gen_step_holding user c st i w st' obs w' q Hst Hstep)
      as (w0 & Hw0 & Hcases).
    assert (World_wf w0 ∧ q < next_ref w0 ∧ ∀ u, registered w0 u q → u = user)
      as (Hwf0 & Hlt0 & Hu0).
    { destruct Hw0 as [->|[e Hg]]; [done|].
      split_and!; [by apply (queue_get_wf q w e w0)| |].
      - apply queue_get_frame in Hg as [_ ->]. done.
      - intros u Hr. by apply Hu, (registered_queue_get q w e w0). }
    destruct Hcases as [[Hst' ->]|[-> Hun]].
    + split; [|intros ? [= <-]; by left].
      split; [done|]. intros ? Hq'. rewrite Hst' in Hq'. by injection Hq' as <-.
    + pose proof (unsubscribe_released user q w0 w' Hwf0 Hlt0 Hu0 Hun) as Hrel.
      split; [|intros ? [= <-]; by right].
      split; [apply Hrel|]. by intros ? [=].
  - split; [|by intros ? [=]].
    destruct st; simpl in Hst; try done; destruct i; cbn [gen_step] in Hstep; try done.
    + pose proof (subscribe_eq user w) as Hsub.
      destruct (subscribe user w) as [r w1] eqn:Hs. injection Hsub as -> Hw1.
      injection Hstep as <- <- <-.
      assert (w1 = (subscribe user w).2) as Hw1' by (by rewrite Hs).
      split; [rewrite Hw1'; by apply subscribe_wf|].
      intros q [= <-]. split; [rewrite Hw1; simpl; lia|].
      intros u Hr. rewrite Hw1' in Hr.
      apply registered_subscribe in Hr as [Hold|[-> _]]; [|done].
      apply (wf_registered_lt w _ _ Hwf) in Hold. lia.
    + injection Hstep as <- <- <-. split; [done|]. by intros ? [=].
    + injection Hstep as <- <- <-. split; [done|]. by intros ? [=].
Qed.

Lemma run_inv user acts st w st' out w' :
  gen_inv user st w → run user acts st w = Some (st', out, w') → gen_inv user st' w'.
Proof.
  revert st w out. induction acts as [|[c i|o] acts IH]; intros st w out Hinv Hrun.
  - by injection Hrun as <- _ <-.
  - cbn [run] in Hrun.
    destruct (gen_step user c st i w) as [[[st1 obs] w1]|] eqn:Hstep; [|done].
    destruct (run user acts st1 w1) as [[[st2 out2] w2]|] eqn:Hrest; [|done].
    injection Hrun as <- _ <-.
    apply (IH st1 w1 out2); [|done].
    by apply (gen_step_inv user c st i w st1 obs w1).
  - cbn [run] in Hrun. apply (IH st (apply_op o w) out); [|done].
    by apply gen_inv_env.
Qed.

Lemma run_released user q acts w st' out w' :
  released q w → run user acts Finished w = Some (st', out, w') →
  st' = Finished ∧ released q w'.
Proof.
  revert w out. induction acts as [|[c i|o] acts IH]; intros w out Hrel Hrun.
  - by injection Hrun as <- _ <-.
  - cbn [run] in Hrun. destruct i; cbn [gen_step] in Hrun; try done.
    destruct (run user acts Finished w) as [[[st2 out2] w2]|] eqn:Hrest; [|done].
    injection Hrun as <- _ <-. by apply (IH w out2).
  - cbn [run] in Hrun. apply (IH (apply_op o w) out); [|done].
    by apply released_env.
Qed.

Lemma run_holding user q acts st w out w' :
  gen_inv user st w → gen_queue st = Some q →
  run user acts st w = Some (Finished, out, w') → released q w'.
Proof.
  revert st w out. induction acts as [|[c i|o] acts IH]; intros st w out Hinv Hq Hrun.
  - injection Hrun as -> _ _. done.
  - cbn [run] in Hrun.
    destruct (gen_step user c st i w) as [[[st1 obs] w1]|] eqn:Hstep; [|done].
    destruct (run user acts st1 w1) as [[[st2 out2] w2]|] eqn:Hrest; [|done].
    injection Hrun as -> _ <-.
    destruct (gen_step_inv user c st i w st1 obs w1 Hinv Hstep) as [Hinv1 Hcases].
    destruct (Hcases q Hq) as [Hq1|[-> Hrel]].
    + by apply (IH st1 w1 out2).
    + by apply (run_released user q acts w1 Finished out2 w2).
  - cbn [run] in Hrun. apply (IH st (apply_op o w) out); [|done|done].
    by apply gen_inv_env.
Qed.

(** C7: a step that ends a generator holding a queue has run
    [unsubscribe] on that queue, whatever made the generator end (the
    [break] after a logged exception, an exception thrown at a [yield], the
    consumer closing the generator, the cancellation of the wait); and in
    every run of a stream among other users of the store, once the
    generator has finished the queue it had subscribed is registered under
    no user. *)
Theorem stream_exit_unsubscribes (user : string) :
  (∀ c st i w obs w' q,
      gen_queue st = Some q → gen_step user c st i w = Some (Finished, obs, w') →
      ∃ w0, (w0 = w ∨ ∃ e, queue_get q w = Some (e, w0))
            ∧ unsubscribe user q w0 = (Py.Ok tt, w'))
  ∧ (∀ acts1 acts2 w0 st1 out1 w1 out2 w2 q,
      World_wf w0 →
      run user acts1 Created w0 = Some (st1, out1, w1) → gen_queue st1 = Some q →
      run user acts2 st1 w1 = Some (Finished, out2, w2) →
      ∀ u, ¬ registered w2 u q).
Proof.
  split.
  - intros c st i w obs w' q Hq Hstep.
    destruct (gen_step_holding user c st i w Finished obs w' q Hq Hstep)
      as (w0 & Hw0 & [[? _]|[_ Hun]]); [done|]. eauto.
  - intros acts1 acts2 w0 st1 out1 w1 out2 w2 q Hwf Hrun1 Hq Hrun2.
    assert (gen_inv user Created w0) as Hinv0 by (split; [done|by intros ? [=]]).
    pose proof (run_inv user acts1 Created w0 st1 out1 w1 Hinv0 Hrun1) as Hinv1.
    by destruct (run_holding user q acts2 st1 w1 out2 w2 Hinv1 Hq Hrun2) as (_ & _ & ?).
Qed.

Lemma stream_exit_unsubscribes_witness :
  World_wf World_init
  ∧ ∃ out1 w1 out2 w2,
      run "u1" stream_opening Created World_init = Some (AtConnected 0, out1, w1)
      ∧ gen_queue (AtConnected 0) = Some 0
      ∧ run "u1" stream_closing (AtConnected 0) w1 = Some (Finished, out2, w2)
      ∧ ∀ u, ¬ registered w2 u 0.
Proof.
  split; [apply World_wf_init|].
  eexists _, _, _, _.
  split_and!; [vm_compute; reflexivity|reflexivity|vm_compute; reflexivity|].
  eapply (proj2 (stream_exit_unsubscribes "u1") stream_opening stream_closing
            World_init (AtConnected 0));
    [apply World_wf_init|vm_compute; reflexivity|reflexivity|vm_compute; reflexivity].
Defined.

(** * Further properties *)

(** ** The registry and the queues *)

(** X1: in every world reached from the initial store by publishing,
    subscribing, unsubscribing and consuming, no user has an empty list, no
    list names a queue twice, every listed queue exists with capacity 100
    and holds at most 100 events, and no queue is listed under two users. *)
Theorem store_invariant (ops : list Op) :
  (∀ u l, subscribers (store (apply_ops ops World_init)) !! u = Some l →
          l ≠ [] ∧ NoDup l
          ∧ ∀ q, q ∈ l →
                 ∃ Q, heap (apply_ops ops World_init) !! q = Some Q
                      ∧ maxsize Q = 100%Z ∧ length (items Q) ≤ 100)
  ∧ (∀ u1 u2 q, registered (apply_ops ops World_init) u1 q →
                registered (apply_ops ops World_init) u2 q → u1 = u2).
Proof.
  pose proof (World_wf_reachable ops) as Hwf.
  split; [|apply (wf_one_key _ Hwf)].
  intros u l Hl. split_and!.
  - by apply (wf_nonempty _ Hwf u).
  - by apply (wf_nodup _ Hwf u).
  - intros q Hq.
    destruct (wf_allocated _ Hwf u q) as [Q HQ]; [by exists l|].
    exists Q. split; [done|]. by apply (wf_queue _ Hwf q).
Qed.

Lemma store_invariant_witness :
  subscribers (store (apply_ops [OpSubscribe "u1"; OpSubscribe "u1"] World_init)) !! "u1"
  = Some [0; 1]
  ∧ [0; 1] ≠ [] ∧ NoDup [0; 1].
Proof.
  assert (subscribers (store (apply_ops [OpSubscribe "u1"; OpSubscribe "u1"] World_init))
            !! "u1" = Some [0; 1]) as Hl by (vm_compute; reflexivity).
  destruct (proj1 (store_invariant [OpSubscribe "u1"; OpSubscribe "u1"]) "u1" [0; 1] Hl)
    as (Hne & Hnd & _).
  split_and!; [exact Hl|exact Hne|exact Hnd].
Defined.

Lemma list_remove_snoc (q : nat) l : q ∉ l → Py.list_remove q (l ++ [q]) = Py.Ok l.
Proof.
  induction l as [|y l IH]; simpl; intros Hq.
  - by rewrite decide_True.
  - apply not_elem_of_cons in Hq as [Hne Hq].
    rewrite decide_False by done. by rewrite IH.
Qed.

(** X2: subscribing and then unsubscribing the queue just obtained gives
    back the registry and the log as they were. *)
Theorem subscribe_then_unsubscribe (u : string) (w : World) :
  World_wf w →
  ∃ q w1, subscribe u w = (Py.Ok q, w1)
          ∧ subscribers (store (unsubscribe u q w1).2) = subscribers (store w)
          ∧ events (store (unsubscribe u q w1).2) = events (store w).
Proof.
  intros Hwf. eexists _, _. split; [apply subscribe_eq|].
  rewrite unsubscribe_eq. simpl. split; [|done].
  unfold registry_without. rewrite lookup_insert_eq.
  destruct (subscribers (store w) !! u) as [l|] eqn:Hl; simpl.
  - assert (next_ref w ∉ l) as Hfresh.
    { intros Hin. assert (registered w u (next_ref w)) as Hr by (by exists l).
      apply (wf_registered_lt w _ _ Hwf) in Hr. lia. }
    rewrite list_remove_snoc by done.
    destruct l as [|x l]; [by destruct (wf_nonempty w Hwf u [] Hl)|].
    rewrite insert_insert_eq. by apply insert_id.
  - rewrite decide_True by done. rewrite delete_insert_eq. by apply delete_id.
Qed.

Lemma subscribe_then_unsubscribe_witness :
  World_wf world_u1
  ∧ ∃ q w1, subscribe "u2" world_u1 = (Py.Ok q, w1)
            ∧ subscribers (store (unsubscribe "u2" q w1).2) = subscribers (store world_u1)
            ∧ events (store (unsubscribe "u2" q w1).2) = events (store world_u1).
Proof.
  split; [apply (World_wf_reachable [OpSubscribe "u1"])|].
  apply subscribe_then_unsubscribe, (World_wf_reachable [OpSubscribe "u1"]).
Defined.

(** X3: closing one subscription leaves every other one in place: another
    queue of the same user, or a queue of another user, stays registered,
    and no queue loses or gains an event. Opening a subscription keeps every
    registration, and every queue that exists keeps its events. *)
Theorem other_subscriptions_untouched (w : World) (u : string) (q : nat) :
  (∀ u' q', registered w u' q' → (u', q') ≠ (u, q) →
            registered (unsubscribe u q w).2 u' q')
  ∧ heap (unsubscribe u q w).2 = heap w
  ∧ (∀ u' q', registered w u' q' → registered (subscribe u w).2 u' q')
  ∧ (World_wf w → ∀ p, is_Some (heap w !! p) →
                       heap (subscribe u w).2 !! p = heap w !! p).
Proof.
  split_and!.
  - intros u' q' (l & Hl & Hq') Hne. rewrite unsubscribe_eq. unfold registered. simpl.
    destruct (decide (u' = u)) as [->|Hu]; [|rewrite registry_without_ne by done; eauto].
    rewrite registry_without_eq, Hl.
    destruct (Py.list_remove q l) as [l'|e] eqn:Hr; [|eauto].
    apply list_remove_ok in Hr as (l1 & l2 & -> & _ & ->).
    assert (q' ∈ l1 ++ l2) as Hin.
    { apply elem_of_app in Hq' as [?|Hq']; apply elem_of_app; [by left|].
      apply elem_of_cons in Hq' as [->|?]; [done|by right]. }
    destruct (l1 ++ l2) as [|x l'] eqn:Hl'; [by apply elem_of_nil in Hin|eauto].
  - by rewrite unsubscribe_eq.
  - intros u' q' Hr. apply registered_subscribe. by left.
  - intros Hwf p Hp. rewrite subscribe_eq. simpl.
    apply (wf_heap_bound w Hwf) in Hp. by rewrite lookup_insert_ne by lia.
Qed.

Lemma other_subscriptions_untouched_witness :
  registered (apply_ops [OpSubscribe "u1"; OpSubscribe "u1"] World_init) "u1" 1
  ∧ ("u1", 1) ≠ ("u1", 0)
  ∧ registered
      (unsubscribe "u1" 0 (apply_ops [OpSubscribe "u1"; OpSubscribe "u1"] World_init)).2
      "u1" 1.
Proof.
  assert (registered (apply_ops [OpSubscribe "u1"; OpSubscribe "u1"] World_init) "u1" 1)
    as Hr.
  { exists [0; 1]. split; [vm_compute; reflexivity|].
    apply list_elem_of_further, list_elem_of_here. }
  assert (("u1", 1) ≠ ("u1", 0)) as Hne by discriminate.
  split_and!; [exact Hr|exact Hne|].
  exact (proj1 (other_subscriptions_untouched _ "u1" 0) "u1" 1 Hr Hne).
Defined.

(** ** Delivery in order *)

Lemma buffered_put_nowait w w' q Q e :
  heap w !! q = Some Q → heap w' !! q = Some (put_nowait e Q) →
  buffered w' q = buffered w q ++ [e].
Proof. unfold buffered. by intros -> ->. Qed.

Lemma is_full_length w q :
  World_wf w → is_full w q → 100 ≤ length (buffered w q).
Proof.
  intros Hwf (Q & HQ & Hfull). unfold buffered. rewrite HQ.
  destruct (wf_queue w Hwf q Q HQ) as [Hm _].
  unfold full in Hfull. rewrite Hm in Hfull. simpl in Hfull.
  apply Z.leb_le in Hfull. lia.
Qed.

(** A publish whose routing key is [u] and that finds room in every queue
    of [u] appends the event to each of them. *)
Lemma publish_event_appends event w u :
  World_wf w → routing_key event = u →
  (∀ p, registered w u p → length (buffered w p) < 100) →
  (publish_event event w).1 = Py.Ok Completed
  ∧ ∀ q, registered w u q →
         buffered (publish_event event w).2 q = buffered w q ++ [event].
Proof.
  intros Hwf <- Hroom.
  assert ((publish_event event w).1 = Py.Ok Completed) as Hc.
  { apply publish_event_completes; [done|].
    intros q Hq Hfull%(is_full_length w q Hwf). specialize (Hroom q Hq). lia. }
  split; [done|]. intros q Hq.
  destruct (wf_allocated w Hwf _ _ Hq) as [Q HQ].
  eapply buffered_put_nowait; [done|]. by apply publish_event_delivered.
Qed.

Lemma publish_event_buffered_other event w u q :
  World_wf w → registered w u q → routing_key event ≠ u →
  buffered (publish_event event w).2 q = buffered w q.
Proof.
  intros Hwf Hq Hne. unfold buffered.
  rewrite (publish_event_other_key event w u q); [done|done|done|].
  intros ->. by apply Hne.
Qed.

Lemma publishes_buffered evs w u :
  World_wf w →
  (∀ p, registered w u p →
        length (buffered w p) + length (filter (λ e, routing_key e = u) evs) ≤ 100) →
  ∀ q, registered w u q →
       buffered (apply_ops (map OpPublish evs) w) q
       = buffered w q ++ filter (λ e, routing_key e = u) evs.
Proof.
  revert w. induction evs as [|e evs IH]; intros w Hwf Hroom q Hq.
  - simpl. by rewrite app_nil_r.
  - change (apply_ops (map OpPublish (e :: evs)) w)
      with (apply_ops (map OpPublish evs) (publish_event e w).2).
    rewrite filter_cons in *. destruct (decide (routing_key e = u)) as [He|He].
    + destruct (publish_event_appends e w u Hwf He) as [_ Happ].
      { intros p Hp. specialize (Hroom p Hp). simpl in Hroom. lia. }
      rewrite IH.
      * rewrite Happ by done. by rewrite <- app_assoc.
      * by apply publish_event_wf.
      * intros p Hp%registered_publish. rewrite Happ by done.
        specialize (Hroom p Hp). rewrite length_app. simpl in *. lia.
      * by apply registered_publish.
    + rewrite IH.
      * by rewrite (publish_event_buffered_other e w u q).
      * by apply publish_event_wf.
      * intros p Hp%registered_publish.
        rewrite (publish_event_buffered_other e w u p) by done. by apply Hroom.
      * by apply registered_publish.
Qed.

(** X4: when events are published one after the other, every queue of a
    user receives exactly the events routed to that user, once each and in
    the order of publication, behind what it held, provided each of the
    user's queues has room for them; events routed elsewhere do not reach
    it. *)
Theorem fan_out_in_publish_order (evs : list NotificationEvent) (w : World)
    (u : string) (q : nat) :
  World_wf w → registered w u q →
  (∀ p, registered w u p →
        length (buffered w p) + length (filter (λ e, routing_key e = u) evs) ≤ 100) →
  buffered (apply_ops (map OpPublish evs) w) q
  = buffered w q ++ filter (λ e, routing_key e = u) evs.
Proof.
  revert w. induction evs as [|e evs IH]; intros w Hwf Hq Hroom.
  - simpl. by rewrite app_nil_r.
  - change (apply_ops (map OpPublish (e :: evs)) w)
      with (apply_ops (map OpPublish evs) (publish_event e w).2).
    pose proof (publish_event_wf e w Hwf) as Hwf'.
    pose proof (proj2 (registered_publish e w u q) Hq) as Hq'.
    rewrite filter_cons in *. destruct (decide (routing_key e = u)) as [He|He].
    + destruct (publish_event_appends e w u Hwf He) as [_ Happ].
      { intros p Hp. specialize (Hroom p Hp). simpl in Hroom. lia. }
      rewrite (IH _ Hwf' Hq').
      * rewrite Happ by done. by rewrite <- app_assoc.
      * intros p Hp%registered_publish. rewrite Happ by done.
        specialize (Hroom p Hp). rewrite length_app. simpl in *. lia.
    + rewrite (IH _ Hwf' Hq').
      * by rewrite (publish_event_buffered_other e w u q).
      * intros p Hp%registered_publish.
        rewrite (publish_event_buffered_other e w u p) by done. by apply Hroom.
Qed.

Lemma fan_out_in_publish_order_witness :
  World_wf (apply_ops [OpSubscribe "u1"; OpSubscribe "u1"] World_init)
  ∧ registered (apply_ops [OpSubscribe "u1"; OpSubscribe "u1"] World_init) "u1" 1
  ∧ buffered
      (apply_ops
         (map OpPublish [sample_event (Some "u1") 1; sample_event (Some "u2") 2;
                         sample_event None 3; sample_event (Some "u1") 4])
         (apply_ops [OpSubscribe "u1"; OpSubscribe "u1"] World_init)) 1
    = [sample_event (Some "u1") 1; sample_event (Some "u1") 4].
Proof.
  assert (World_wf (apply_ops [OpSubscribe "u1"; OpSubscribe "u1"] World_init)) as Hwf
    by apply World_wf_reachable.
  assert (registered (apply_ops [OpSubscribe "u1"; OpSubscribe "u1"] World_init) "u1" 1)
    as Hr.
  { exists [0; 1]. split; [vm_compute; reflexivity|].
    apply list_elem_of_further, list_elem_of_here. }
  split_and!; [exact Hwf|exact Hr|].
  rewrite (fan_out_in_publish_order _ _ "u1" 1 Hwf Hr); [vm_compute; reflexivity|].
  intros p (l & Hl & Hp). vm_compute in Hl. injection Hl as <-.
  apply elem_of_cons in Hp as [->|Hp]; [vm_compute; lia|].
  apply list_elem_of_singleton in Hp as ->. vm_compute. lia.
Defined.

Lemma serializable_to_dict e : Py.serializable (to_dict e) = Py.serializable (data e).
Proof.
  unfold to_dict. simpl. rewrite andb_true_r.
  by destruct (user_id e), (conversation_id e); simpl; rewrite ?andb_true_r.
Qed.

Lemma queue_get_head q w e rest :
  buffered w q = e :: rest →
  ∃ w', queue_get q w = Some (e, w') ∧ buffered w' q = rest ∧ store w' = store w
        ∧ next_ref w' = next_ref w.
Proof.
  unfold buffered, queue_get. destruct (heap w !! q) as [Q|] eqn:HQ; [|done].
  intros ->. eexists. split; [done|]. simpl. by rewrite lookup_insert_eq.
Qed.

(** A waiting stream whose queue holds [evs], all of them encodable, hands
    them to its consumer in that order and is waiting again, its queue
    empty. *)
Lemma drain_run user q c evs :
  (∀ e, e ∈ evs → Py.serializable (data e) = true) →
  ∀ since w, buffered w q = evs →
  ∃ since' w', run user (drain (length evs) c) (Waiting q since) w
               = Some (Waiting q since', chunks_of evs, w')
               ∧ buffered w' q = [] ∧ store w' = store w.
Proof.
  induction evs as [|e evs IH]; intros Hser since w Hbuf.
  - exists since, w. done.
  - destruct (queue_get_head q w e evs Hbuf) as (w1 & Hget & Hbuf1 & Hst1 & _).
    destruct (IH (λ e' He', Hser e' (list_elem_of_further _ _ _ He')) (loop_ms c) w1 Hbuf1)
      as (since' & w' & Hrun & Hempty & Hst).
    exists since', w'. split_and!; [|done|congruence].
    cbn [length drain run gen_step]. rewrite Hget, serializable_to_dict.
    rewrite (Hser e) by apply list_elem_of_here.
    cbn [run gen_step]. by rewrite Hrun.
Qed.

Lemma run_app user acts1 acts2 st w :
  run user (acts1 ++ acts2) st w =
  match run user acts1 st w with
  | Some (st1, out1, w1) =>
      match run user acts2 st1 w1 with
      | Some (st2, out2, w2) => Some (st2, out1 ++ out2, w2)
      | None => None
      end
  | None => None
  end.
Proof.
  revert st w. induction acts1 as [|[c i|o] acts1 IH]; intros st w; simpl.
  - by destruct (run user acts2 st w) as [[[??]?]|].
  - destruct (gen_step user c st i w) as [[[st1 obs] w1]|]; [|done].
    rewrite IH. destruct (run user acts1 st1 w1) as [[[st2 out2] w2]|]; [|done].
    by destruct (run user acts2 st2 w2) as [[[??]?]|].
  - apply IH.
Qed.

Lemma run_env user ops st w :
  run user (map Env ops) st w = Some (st, [], apply_ops ops w).
Proof.
  revert w. induction ops as [|o ops IH]; intros w; [done|]. simpl. apply IH.
Qed.

(** X5: a waiting stream with an empty queue, while events are published
    and then handed over, gives its consumer exactly the events routed to
    its user, once each and in the order of publication, each as its
    [to_dict] document; it is then waiting again with an empty queue. The
    events must be encodable and the queues of the user must have room. *)
Theorem stream_observes_in_publish_order (evs : list NotificationEvent)
    (w : World) (u : string) (q : nat) (since : Z) (c : Clock) :
  World_wf w → registered w u q → buffered w q = [] →
  (∀ p, registered w u p →
        length (buffered w p) + length (filter (λ e, routing_key e = u) evs) ≤ 100) →
  (∀ e, e ∈ evs → Py.serializable (data e) = true) →
  ∃ since' w',
    run u (map Env (map OpPublish evs)
           ++ drain (length (filter (λ e, routing_key e = u) evs)) c)
        (Waiting q since) w
    = Some (Waiting q since', chunks_of (filter (λ e, routing_key e = u) evs), w')
    ∧ buffered w' q = [].
Proof.
  intros Hwf Hq Hempty Hroom Hser.
  pose proof (publishes_buffered evs w u Hwf Hroom q Hq) as Hbuf.
  rewrite Hempty in Hbuf. simpl in Hbuf.
  destruct (drain_run u q c (filter (λ e, routing_key e = u) evs)) with
    (since := since) (w := apply_ops (map OpPublish evs) w)
    as (since' & w' & Hrun & Hbuf' & _); [|done|].
  { intros e He. apply list_elem_of_filter in He as [_ He]. by apply Hser. }
  exists since', w'. split; [|done].
  by rewrite run_app, run_env, Hrun.
Qed.

Lemma stream_observes_in_publish_order_witness :
  World_wf world_u1 ∧ registered world_u1 "u1" 0 ∧ buffered world_u1 0 = []
  ∧ ∃ since' w',
      run "u1"
          (map Env (map OpPublish [sample_event (Some "u1") 1; sample_event (Some "u2") 2;
                                   sample_event (Some "u1") 3])
           ++ drain 2 (sample_clock 50))
          (Waiting 0 10) world_u1
      = Some (Waiting 0 since',
              [Yielded (to_dict (sample_event (Some "u1") 1)); Awaits;
               Yielded (to_dict (sample_event (Some "u1") 3)); Awaits], w')
      ∧ buffered w' 0 = [].
Proof.
  assert (World_wf world_u1) as Hwf by apply (World_wf_reachable [OpSubscribe "u1"]).
  assert (registered world_u1 "u1" 0) as Hr.
  { exists [0]. split; [vm_compute; reflexivity|apply list_elem_of_here]. }
  assert (buffered world_u1 0 = []) as He by (vm_compute; reflexivity).
  split_and!; [exact Hwf|exact Hr|exact He|].
  apply (stream_observes_in_publish_order
           [sample_event (Some "u1") 1; sample_event (Some "u2") 2;
            sample_event (Some "u1") 3] world_u1 "u1" 0 10 (sample_clock 50) Hwf Hr He).
  - intros p (l & Hl & Hp). vm_compute in Hl. injection Hl as <-.
    apply list_elem_of_singleton in Hp as ->. vm_compute. lia.
  - intros e He'. repeat (apply elem_of_cons in He' as [->|He']; [reflexivity|]).
    destruct (proj1 (elem_of_nil e) He').
Defined.

(** ** Encoding of events *)

Lemma NotificationType_value_inj t1 t2 :
  NotificationType_value t1 = NotificationType_value t2 → t1 = t2.
Proof. by destruct t1, t2. Qed.

Lemma of_option_inj x y : Py.of_option x = Py.of_option y → x = y.
Proof. destruct x, y; simpl; congruence. Qed.

(** X6: the document [to_dict] builds determines the event, and it can be
    encoded exactly when the payload of the event can. *)
Theorem to_dict_faithful :
  (∀ e1 e2, to_dict e1 = to_dict e2 → e1 = e2)
  ∧ (∀ e, Py.serializable (to_dict e) = Py.serializable (data e)).
Proof.
  split; [|apply serializable_to_dict].
  intros [t1 d1 u1 c1 ts1 i1] [t2 d2 u2 c2 ts2 i2]. unfold to_dict. simpl.
  intros [= -> Ht%NotificationType_value_inj -> Hu%of_option_inj Hc%of_option_inj ->].
  by subst.
Qed.

(** X7: an event whose payload cannot be encoded ends the stream it is
    handed to: the generator stops, its queue is unsubscribed, the event is
    gone from the queue and the events behind it stay there, undelivered;
    the log is as it was. *)
Theorem unencodable_event_ends_stream (w : World) (user : string) (q : nat)
    (since : Z) (c : Clock) (e : NotificationEvent) (rest : list NotificationEvent) :
  World_wf w → buffered w q = e :: rest → Py.serializable (data e) = false →
  ∃ w', gen_step user c (Waiting q since) GetReturns w = Some (Finished, Stopped, w')
        ∧ ¬ registered w' user q
        ∧ buffered w' q = rest
        ∧ events (store w') = events (store w).
Proof.
  intros Hwf Hbuf Hser.
  destruct (queue_get_head q w e rest Hbuf) as (w1 & Hget & Hbuf1 & Hst1 & _).
  exists (unsubscribe user q w1).2. split_and!.
  - cbn [gen_step]. rewrite Hget, serializable_to_dict, Hser.
    cbn [loop_handlers Py.is_Exception]. by rewrite finally_unsubscribe_eq.
  - apply not_registered_unsubscribe. rewrite Hst1. apply (wf_nodup w Hwf).
  - rewrite unsubscribe_eq. done.
  - rewrite unsubscribe_eq. simpl. by rewrite Hst1.
Qed.

Lemma unencodable_event_ends_stream_witness :
  World_wf (apply_ops [OpSubscribe "u1"; OpPublish opaque_event;
                       OpPublish (sample_event (Some "u1") 5)] World_init)
  ∧ buffered (apply_ops [OpSubscribe "u1"; OpPublish opaque_event;
                         OpPublish (sample_event (Some "u1") 5)] World_init) 0
    = [opaque_event; sample_event (Some "u1") 5]
  ∧ Py.serializable (data opaque_event) = false
  ∧ ∃ w', gen_step "u1" (sample_clock 5) (Waiting 0 0) GetReturns
            (apply_ops [OpSubscribe "u1"; OpPublish opaque_event;
                        OpPublish (sample_event (Some "u1") 5)] World_init)
          = Some (Finished, Stopped, w')
          ∧ ¬ registered w' "u1" 0
          ∧ buffered w' 0 = [sample_event (Some "u1") 5].
Proof.
  assert (World_wf (apply_ops [OpSubscribe "u1"; OpPublish opaque_event;
                               OpPublish (sample_event (Some "u1") 5)] World_init))
    as Hwf by apply World_wf_reachable.
  assert (buffered (apply_ops [OpSubscribe "u1"; OpPublish opaque_event;
                               OpPublish (sample_event (Some "u1") 5)] World_init) 0
          = [opaque_event; sample_event (Some "u1") 5]) as Hbuf
    by (vm_compute; reflexivity).
  split_and!; [exact Hwf|exact Hbuf|reflexivity|].
  destruct (unencodable_event_ends_stream _ "u1" 0 0 (sample_clock 5) _ _ Hwf Hbuf eq_refl)
    as (w' & Hstep & Hnr & Hrest & _).
  exists w'. split_and!; [exact Hstep|exact Hnr|exact Hrest].
Defined.

(** ** The producers *)

Lemma last_n_snoc_drop {A} (n : nat) (l : list A) (x : A) :
  0 < n → last_n n (l ++ [x]) = drop (length l + 1 - n) l ++ [x].
Proof.
  intros Hn. unfold last_n. rewrite length_app. simpl. rewrite skipn_app.
  by replace (length l + 1 - n - length l) with 0 by lia.
Qed.

(** X8: [publish_notification] never raises and allocates nothing; it
    leaves the registry as it was; whether it completes or is suspended, the
    event it built is then the newest of the log, behind a suffix of the
    earlier log, with the type, payload, recipient and conversation it was
    given. *)
Theorem publish_notification_logged (t : NotificationType) (d : Py.value)
    (u conv : option string) (iso : string) (ms : Z) (w : World) :
  ∃ o w' log,
    publish_notification t d u conv iso ms w = (Py.Ok o, w')
    ∧ subscribers (store w') = subscribers (store w)
    ∧ next_ref w' = next_ref w
    ∧ events (store w') = log ++ [NotificationEvent_init t d u conv iso ms]
    ∧ log `suffix_of` events (store w).
Proof.
  unfold publish_notification.
  destruct (publish_event_frame (NotificationEvent_init t d u conv iso ms) w)
    as (o & h & Heq & _).
  rewrite Heq.
  exists o, (with_heap h (with_events
                            (log_after (NotificationEvent_init t d u conv iso ms)
                                       (events (store w))) w)),
         (drop (length (events (store w)) + 1 - 1000) (events (store w))).
  split_and!; [done|done|done| |apply suffix_drop].
  simpl. rewrite log_after_eq. apply last_n_snoc_drop. lia.
Qed.

Lemma routing_key_recipient t d u conv iso ms :
  u ≠ "" → routing_key (NotificationEvent_init t d (Some u) conv iso ms) = u.
Proof.
  intros Hu. unfold routing_key, Py.or_, Py.truthy. simpl.
  by destruct (String.eqb_spec u "").
Qed.

Lemma gen_step_get user c q since w e w' :
  queue_get q w = Some (e, w') → Py.serializable (data e) = true →
  gen_step user c (Waiting q since) GetReturns w
  = Some (AtEvent q, Yielded (to_dict e), w').
Proof.
  intros Hget Hser. cbn [gen_step]. by rewrite Hget, serializable_to_dict, Hser.
Qed.

(** A notification for a user with a waiting stream whose queue is empty is
    the next chunk of that stream. *)
Lemma publish_notification_to_stream t d u conv iso ms w q since c :
  World_wf w → u ≠ "" → registered w u q → buffered w q = [] →
  (∀ p, registered w u p → length (buffered w p) < 100) →
  Py.serializable d = true →
  ∃ w1 w2,
    publish_notification t d (Some u) conv iso ms w = (Py.Ok Completed, w1)
    ∧ gen_step u c (Waiting q since) GetReturns w1
      = Some (AtEvent q,
              Yielded (to_dict (NotificationEvent_init t d (Some u) conv iso ms)), w2)
    ∧ buffered w2 q = [].
Proof.
  intros Hwf Hu Hq Hempty Hroom Hser. unfold publish_notification.
  destruct (publish_event_appends (NotificationEvent_init t d (Some u) conv iso ms) w u)
    as [Hc Happ]; [done|by apply routing_key_recipient|done|].
  specialize (Happ q Hq). rewrite Hempty in Happ. simpl in Happ.
  destruct (publish_event (NotificationEvent_init t d (Some u) conv iso ms) w)
    as [r w1] eqn:Hp. simpl in *. subst r.
  destruct (queue_get_head q w1 _ [] Happ) as (w2 & Hget & Hbuf2 & _).
  exists w1, w2. split_and!; [done| |done].
  apply (gen_step_get u c q since w1 _ w2 Hget). exact Hser.
Qed.

(** X9: when the user has a waiting stream with an empty queue and all the
    user's queues have room, [notify_message_received] and
    [notify_conversation_updated] complete and the stream's next chunk is
    the notification: its id, made of the member's qualified name and the
    millisecond reading, its type, the payload built from the arguments, the
    user as recipient, the conversation and the timestamp. The user is not
    the empty string and the given data can be encoded. *)
Theorem notifications_reach_stream (w : World) (u conv : string) (d : Py.value)
    (iso : string) (ms : Z) (q : nat) (since : Z) (c : Clock) :
  World_wf w → u ≠ "" → registered w u q → buffered w q = [] →
  (∀ p, registered w u p → length (buffered w p) < 100) →
  Py.serializable d = true →
  (∃ w1 w2,
      notify_message_received u conv d iso ms w = (Py.Ok Completed, w1)
      ∧ gen_step u c (Waiting q since) GetReturns w1
        = Some (AtEvent q,
                Yielded
                  (Py.VDict
                     [("event_id",
                       Py.VStr ("NotificationType.MESSAGE_RECEIVED_" +:+ pretty ms));
                      ("event_type", Py.VStr "message_received");
                      ("data", Py.VDict [("message", d);
                                         ("conversation_id", Py.VStr conv)]);
                      ("user_id", Py.VStr u);
                      ("conversation_id", Py.VStr conv);
                      ("timestamp", Py.VStr iso)]), w2)
      ∧ buffered w2 q = [])
  ∧ (∃ w1 w2,
      notify_conversation_updated u conv d iso ms w = (Py.Ok Completed, w1)
      ∧ gen_step u c (Waiting q since) GetReturns w1
        = Some (AtEvent q,
                Yielded
                  (Py.VDict
                     [("event_id",
                       Py.VStr ("NotificationType.CONVERSATION_UPDATED_" +:+ pretty ms));
                      ("event_type", Py.VStr "conversation_updated");
                      ("data", Py.VDict [("conversation_id", Py.VStr conv);
                                         ("updates", d)]);
                      ("user_id", Py.VStr u);
                      ("conversation_id", Py.VStr conv);
                      ("timestamp", Py.VStr iso)]), w2)
      ∧ buffered w2 q = []).
Proof.
  intros Hwf Hu Hq Hempty Hroom Hser. split.
  - apply (publish_notification_to_stream MESSAGE_RECEIVED); try done.
    simpl. by rewrite Hser.
  - apply (publish_notification_to_stream CONVERSATION_UPDATED); try done.
    simpl. by rewrite Hser.
Qed.

Lemma notifications_reach_stream_witness :
  World_wf world_u1 ∧ "u1" ≠ "" ∧ registered world_u1 "u1" 0
  ∧ buffered world_u1 0 = [] ∧ Py.serializable (Py.VStr "hello") = true
  ∧ ∃ w1 w2,
      notify_message_received "u1" "c1" (Py.VStr "hello") "2024-05-01T12:00:00" 9 world_u1
      = (Py.Ok Completed, w1)
      ∧ gen_step "u1" (sample_clock 3) (Waiting 0 0) GetReturns w1
        = Some (AtEvent 0,
                Yielded
                  (Py.VDict
                     [("event_id", Py.VStr "NotificationType.MESSAGE_RECEIVED_9");
                      ("event_type", Py.VStr "message_received");
                      ("data", Py.VDict [("message", Py.VStr "hello");
                                         ("conversation_id", Py.VStr "c1")]);
                      ("user_id", Py.VStr "u1");
                      ("conversation_id", Py.VStr "c1");
                      ("timestamp", Py.VStr "2024-05-01T12:00:00")]), w2)
      ∧ buffered w2 0 = [].
Proof.
  assert (World_wf world_u1) as Hwf by apply (World_wf_reachable [OpSubscribe "u1"]).
  assert ("u1" ≠ "") as Hu by discriminate.
  assert (registered world_u1 "u1" 0) as Hr.
  { exists [0]. split; [vm_compute; reflexivity|apply list_elem_of_here]. }
  assert (buffered world_u1 0 = []) as He by (vm_compute; reflexivity).
  split_and!; [exact Hwf|exact Hu|exact Hr|exact He|reflexivity|].
  apply (notifications_reach_stream world_u1 "u1" "c1" (Py.VStr "hello")
           "2024-05-01T12:00:00" 9 0 0 (sample_clock 3) Hwf Hu Hr He); [|reflexivity].
  intros p (l & Hl & Hp). vm_compute in Hl. injection Hl as <-.
  apply list_elem_of_singleton in Hp as ->. vm_compute. lia.
Defined.

(** ** The polling endpoint and the caller's identity *)

Lemma List_filter_sublist {A} (f : A → bool) (l : list A) :
  List.filter f l `sublist_of` l.
Proof.
  induction l as [|x l IH]; simpl; [done|].
  destruct (f x); by constructor.
Qed.

Lemma slice_from_sublist {A} (start : Z) (l : list A) :
  Py.slice_from start l `sublist_of` l.
Proof. apply sublist_drop. Qed.

Lemma slice_from_length {A} (limit : Z) (l : list A) :
  (1 ≤ limit)%Z → (Z.of_nat (length (Py.slice_from (- limit) l)) ≤ limit)%Z.
Proof.
  intros Hl. replace limit with (Z.of_nat (Z.to_nat limit)) at 1 by lia.
  rewrite slice_from_neg by lia. rewrite last_n_length. lia.
Qed.

Lemma get_recent_events_of_ok uid limit w :
  ∃ evs, get_recent_events_of uid limit w = (Py.Ok evs, w)
         ∧ evs `sublist_of` events (store w)
         ∧ ((1 ≤ limit)%Z → (Z.of_nat (length evs) ≤ limit)%Z)
         ∧ (∀ u, uid = Py.VStr u → (1 ≤ limit)%Z →
                 evs = RecentFor u (Z.to_nat limit) (events (store w))).
Proof.
  assert (∀ f, ∃ evs,
            (Py.Ok (Py.slice_from (- limit) (List.filter f (events (store w)))), w)
            = (Py.Ok evs, w)
            ∧ evs `sublist_of` events (store w)
            ∧ ((1 ≤ limit)%Z → (Z.of_nat (length evs) ≤ limit)%Z)) as Hgen.
  { intros f. eexists. split; [done|]. split.
    - etrans; [apply slice_from_sublist|apply List_filter_sublist].
    - apply slice_from_length. }
  destruct uid as [| | |s| | |];
    try (destruct (Hgen (λ e, match user_id e with None => true | Some _ => false end))
           as (evs & Heq & Hsub & Hlen);
         exists evs; split_and!; [exact Heq|exact Hsub|exact Hlen|by intros ? [=]]).
  destruct (Hgen (visible_to s)) as (evs & Heq & Hsub & Hlen).
  exists evs. split_and!; [exact Heq|exact Hsub|exact Hlen|].
  intros u [= <-] Hlim. injection Heq as <-.
  rewrite filter_visible_to. unfold RecentFor.
  rewrite <- (slice_from_neg (Z.to_nat limit)) by lia. by rewrite Z2Nat.id by lia.
Qed.

Lemma get_recent_notifications_ok limit cu c w uid :
  cu !! "id" = Some uid →
  ∃ evs, get_recent_notifications limit cu c w
         = (Returns (Py.VDict [("events", Py.VList (map to_dict evs));
                               ("count", Py.VInt (Z.of_nat (length evs)));
                               ("timestamp", Py.VStr (utc_iso c))]), w)
         ∧ evs `sublist_of` events (store w)
         ∧ ((1 ≤ limit)%Z → (Z.of_nat (length evs) ≤ limit)%Z)
         ∧ (∀ u, uid = Py.VStr u → (1 ≤ limit)%Z →
                 evs = RecentFor u (Z.to_nat limit) (events (store w))).
Proof.
  intros Hid.
  destruct (get_recent_events_of_ok uid limit w) as (evs & Heq & Hrest).
  exists evs. split; [|exact Hrest].
  unfold get_recent_notifications, or_500, bind, dict_getitem, ret.
  by rewrite Hid, Heq.
Qed.

(** X10: the polling endpoint never changes the store. With an identity
    that has an ["id"] it answers with events of the log in log order,
    their number in [count], at most [limit] of them when [limit] is at
    least 1, and for a string id exactly the last [limit] events for that
    user; with an identity without ["id"] it answers 500. *)
Theorem polling_endpoint_reply (limit : Z) (cu : gmap string Py.value)
    (c : Clock) (w : World) :
  (get_recent_notifications limit cu c w).2 = w
  ∧ (cu !! "id" = None →
     get_recent_notifications limit cu c w
     = (HTTPException 500 "获取通知失败", w))
  ∧ (∀ uid, cu !! "id" = Some uid →
       ∃ evs, get_recent_notifications limit cu c w
              = (Returns (Py.VDict [("events", Py.VList (map to_dict evs));
                                    ("count", Py.VInt (Z.of_nat (length evs)));
                                    ("timestamp", Py.VStr (utc_iso c))]), w)
              ∧ evs `sublist_of` events (store w)
              ∧ ((1 ≤ limit)%Z → (Z.of_nat (length evs) ≤ limit)%Z)
              ∧ (∀ u, uid = Py.VStr u → (1 ≤ limit)%Z →
                      evs = RecentFor u (Z.to_nat limit) (events (store w)))).
Proof.
  assert (cu !! "id" = None →
          get_recent_notifications limit cu c w
          = (HTTPException 500 "获取通知失败", w)) as Hnone.
  { intros Hid. unfold get_recent_notifications, or_500, bind, dict_getitem.
    by rewrite Hid. }
  split_and!; [|exact Hnone|apply get_recent_notifications_ok].
  destruct (cu !! "id") as [uid|] eqn:Hid.
  - by destruct (get_recent_notifications_ok limit cu c w uid Hid) as (evs & -> & _).
  - by rewrite Hnone.
Qed.

Lemma polling_endpoint_reply_witness :
  sample_user !! "id" = Some (Py.VStr "u1") ∧ (1 ≤ 1)%Z
  ∧ get_recent_notifications 1 sample_user (sample_clock 0)
      (apply_ops [OpPublish (sample_event (Some "u1") 1); OpPublish (sample_event None 2);
                  OpPublish (sample_event (Some "u2") 3)] World_init)
    = (Returns (Py.VDict [("events", Py.VList [to_dict (sample_event None 2)]);
                          ("count", Py.VInt 1);
                          ("timestamp", Py.VStr "2024-05-01T12:00:30")]),
       apply_ops [OpPublish (sample_event (Some "u1") 1); OpPublish (sample_event None 2);
                  OpPublish (sample_event (Some "u2") 3)] World_init).
Proof.
  assert (sample_user !! "id" = Some (Py.VStr "u1")) as Hid by (vm_compute; reflexivity).
  split_and!; [exact Hid|lia|].
  destruct (proj2 (proj2 (polling_endpoint_reply 1 sample_user (sample_clock 0)
                            (apply_ops [OpPublish (sample_event (Some "u1") 1);
                                        OpPublish (sample_event None 2);
                                        OpPublish (sample_event (Some "u2") 3)]
                                       World_init))) _ Hid)
    as (evs & Heq & _ & _ & Hrecent).
  rewrite Heq, (Hrecent "u1" eq_refl ltac:(lia)). vm_compute. reflexivity.
Defined.

Lemma get_current_user_cases decode token :
  match decode token with
  | Some payload =>
      match dict_get payload "sub" with
      | Py.VNone => get_current_user decode token = HTTPException 401 "无效的认证凭据"
      | _ => ∃ user, get_current_user decode token = Returns user
                     ∧ user !! "id" = Some (dict_get payload "sub")
                     ∧ (user !! "is_anonymous" = Some (Py.VBool true)
                        → user !! "email" = Some Py.VNone)
      end
  | None => get_current_user decode token = HTTPException 401 "无效的认证凭据"
  end.
Proof.
  unfold get_current_user, verify_token.
  destruct (decode token) as [payload|]; [|done].
  destruct (dict_get payload "sub") eqn:Hsub; try done;
    destruct (value_truthy (dict_get payload "is_anonymous"));
    eexists; (split; [done|]).
  all: split. all: try (intros Hanon). all: simplify_map_eq. all: by rewrite ?Hsub.
Qed.

(** X11: [get_current_user] rejects with 401 a token that does not decode
    or whose payload has no ["sub"]; every identity it returns carries the
    payload's ["sub"], which is not [None], under ["id"], and has no email
    when it is anonymous; the polling endpoint called with such an identity
    always answers with a body and never with an error. *)
Theorem get_current_user_identity
    (decode : string → option (gmap string Py.value)) (token : string) :
  (∀ user, get_current_user decode token = Returns user →
     ∃ payload, decode token = Some payload
                ∧ user !! "id" = Some (dict_get payload "sub")
                ∧ dict_get payload "sub" ≠ Py.VNone
                ∧ (user !! "is_anonymous" = Some (Py.VBool true)
                   → user !! "email" = Some Py.VNone)
                ∧ ∀ limit c w, ∃ body,
                    get_recent_notifications limit user c w = (Returns body, w))
  ∧ (decode token = None
     ∨ (∃ payload, decode token = Some payload ∧ dict_get payload "sub" = Py.VNone) →
     get_current_user decode token = HTTPException 401 "无效的认证凭据").
Proof.
  pose proof (get_current_user_cases decode token) as Hc.
  split.
  - intros user Hret. destruct (decode token) as [payload|]; [|congruence].
    exists payload. split; [done|].
    destruct (dict_get payload "sub") eqn:Hsub; try congruence;
      destruct Hc as (user' & Hret' & Hid & Hanon);
      rewrite Hret in Hret'; injection Hret' as <-;
      (split_and!; [done|done|done|]);
      intros limit c w;
      destruct (get_recent_notifications_ok limit user c w _ Hid) as (evs & Heq & _);
      eauto.
  - intros [Hnone|(payload & Hdec & Hsub)].
    + by rewrite Hnone in Hc.
    + by rewrite Hdec, Hsub in Hc.
Qed.

Lemma get_current_user_identity_witness :
  (∃ user, get_current_user sample_decode "good" = Returns user
           ∧ user !! "id" = Some (Py.VStr "u1"))
  ∧ sample_decode "bad" = None
  ∧ get_current_user sample_decode "bad" = HTTPException 401 "无效的认证凭据".
Proof.
  split_and!.
  - exists sample_user. split; [vm_compute; reflexivity|].
    destruct (proj1 (get_current_user_identity sample_decode "good") sample_user)
      as (payload & Hdec & Hid & _); [vm_compute; reflexivity|].
    vm_compute. reflexivity.
  - reflexivity.
  - apply (proj2 (get_current_user_identity sample_decode "bad")).
    left. reflexivity.
Defined.

(** ** The call from the chat handler *)

Lemma call_publish_notification_rejects kw iso ms w :
  kw_unknown kw ≠ [] ∨ kw_event_type kw = None ∨ kw_data kw = None →
  call_publish_notification kw iso ms w = (Py.Raise Py.TypeError, w).
Proof.
  unfold call_publish_notification.
  destruct (kw_unknown kw) as [|k ks]; [|done].
  intros [?|[->| ->]]; [done|done|]. by destruct (kw_event_type kw).
Qed.

(** X12: a call of [publish_notification] by keywords that passes a keyword
    naming none of its parameters, or omits [event_type] or [data], raises
    [TypeError] and publishes nothing. The call in [chat.send_message]
    passes [title], [message] and [metadata], so the handler never returns
    its response: once the assistant's reply is stored it answers 500, and
    the notification store is left as it was. *)
Theorem send_message_never_notifies :
  (∀ kw iso ms w,
      kw_unknown kw ≠ [] ∨ kw_event_type kw = None ∨ kw_data kw = None →
      call_publish_notification kw iso ms w = (Py.Raise Py.TypeError, w))
  ∧ (∀ before iso ms w,
        (send_message before iso ms w).2 = w
        ∧ (∀ body, (send_message before iso ms w).1 ≠ Returns body)
        ∧ (∀ ctx, before = Py.Ok ctx →
             send_message before iso ms w = (HTTPException 500 "发送消息失败", w))).
Proof.
  split; [apply call_publish_notification_rejects|].
  intros before iso ms w.
  assert (∀ ctx, before = Py.Ok ctx →
            send_message before iso ms w = (HTTPException 500 "发送消息失败", w)) as Hok.
  { intros ctx ->. unfold send_message, or_500, bind, lift, dict_getitem.
    destruct (sc_ai_message ctx !! "id") as [message_id|]; [|done].
    by rewrite call_publish_notification_rejects by (left; done). }
  destruct before as [ctx|e].
  - split_and!; [by rewrite (Hok ctx eq_refl)|by rewrite (Hok ctx eq_refl)|exact Hok].
  - unfold send_message, or_500, bind, lift. simpl.
    destruct (Py.is_Exception e); split_and!; done.
Qed.

Lemma send_message_never_notifies_witness :
  send_message (Py.Ok sample_context) "2024-05-01T12:00:00" 5 world_u1
  = (HTTPException 500 "发送消息失败", world_u1).
Proof.
  exact (proj2 (proj2 (proj2 send_message_never_notifies
                         (Py.Ok sample_context) "2024-05-01T12:00:00" 5%Z world_u1))
           sample_context eq_refl).
Defined.

(** ** What a stream leaves alone *)

Lemma registered_unsubscribe_other u q w u' q' :
  registered w u' q' → (u', q') ≠ (u, q) → registered (unsubscribe u q w).2 u' q'.
Proof.
  intros (l & Hl & Hq') Hne. rewrite unsubscribe_eq. unfold registered. simpl.
  destruct (decide (u' = u)) as [->|Hu]; [|rewrite registry_without_ne by done; eauto].
  rewrite registry_without_eq, Hl.
  destruct (Py.list_remove q l) as [l'|e] eqn:Hr; [|eauto].
  apply list_remove_ok in Hr as (l1 & l2 & -> & _ & ->).
  assert (q' ∈ l1 ++ l2) as Hin.
  { apply elem_of_app in Hq' as [?|Hq']; apply elem_of_app; [by left|].
    apply elem_of_cons in Hq' as [->|?]; [done|by right]. }
  destruct (l1 ++ l2) as [|x l'] eqn:Hl'; [by apply elem_of_nil in Hin|eauto].
Qed.

Lemma queue_get_other q w e w0 p :
  queue_get q w = Some (e, w0) → p ≠ q → heap w0 !! p = heap w !! p.
Proof.
  unfold queue_get. destruct (heap w !! q) as [Q|]; [|done].
  destruct (items Q); [done|]. intros [= <- <-] Hne. simpl.
  by rewrite lookup_insert_ne.
Qed.

(** X13: a resumption of a stream never changes the log, never removes the
    registration of another queue, and never changes the content of a queue
    other than its own. *)
Theorem stream_step_frame (user : string) (c : Clock) (st : GenState)
    (i : GenInput) (w : World) (st' : GenState) (obs : Observation) (w' : World) :
  World_wf w → gen_step user c st i w = Some (st', obs, w') →
  events (store w') = events (store w)
  ∧ (∀ u' q', registered w u' q' → gen_queue st ≠ Some q' → registered w' u' q')
  ∧ (∀ p, is_Some (heap w !! p) → gen_queue st ≠ Some p →
          heap w' !! p = heap w !! p).
Proof.
  intros Hwf Hstep. destruct (gen_queue st) as [q|] eqn:Hst.
  - destruct (gen_step_holding user c st i w st' obs w' q Hst Hstep)
      as (w0 & Hw0 & Hcases).
    assert (store w0 = store w ∧ ∀ p, p ≠ q → heap w0 !! p = heap w !! p)
      as [Hst0 Hheap0].
    { destruct Hw0 as [->|[e Hg]]; [done|]. split.
      - by apply queue_get_frame in Hg as [? _].
      - intros p Hp. by apply (queue_get_other q w e w0). }
    destruct Hcases as [[_ ->]|[_ Hun]].
    + split_and!.
      * by rewrite Hst0.
      * intros u' q' Hr _. unfold registered. by rewrite Hst0.
      * intros p _ Hp. apply Hheap0. congruence.
    + assert (w' = (unsubscribe user q w0).2) as -> by (by rewrite Hun).
      split_and!.
      * rewrite unsubscribe_eq. simpl. by rewrite Hst0.
      * intros u' q' Hr Hq'. apply registered_unsubscribe_other.
        -- unfold registered. by rewrite Hst0.
        -- intros [= -> ->]. done.
      * intros p _ Hp. rewrite unsubscribe_eq. simpl. apply Hheap0. congruence.
  - destruct st; simpl in Hst; try done; destruct i; cbn [gen_step] in Hstep; try done.
    + pose proof (subscribe_eq user w) as Hsub.
      destruct (subscribe user w) as [r w1] eqn:Hs. injection Hsub as -> Hw1.
      injection Hstep as <- <- <-.
      assert (w1 = (subscribe user w).2) as Hw1' by (by rewrite Hs).
      split_and!.
      * by rewrite Hw1.
      * intros u' q' Hr _. rewrite Hw1'. apply registered_subscribe. by left.
      * intros p Hp _. rewrite Hw1. simpl.
        apply (wf_heap_bound w Hwf) in Hp. by rewrite lookup_insert_ne by lia.
    + by injection Hstep as <- <- <-.
    + by injection Hstep as <- <- <-.
Qed.

Lemma stream_step_frame_witness :
  World_wf world_two_keys
  ∧ gen_step "" (sample_clock 9) (AtConnected 0) (Throw Py.GeneratorExit) world_two_keys
    = Some (Finished, Raised Py.GeneratorExit, (unsubscribe "" 0 world_two_keys).2)
  ∧ registered (unsubscribe "" 0 world_two_keys).2 "global" 1.
Proof.
  assert (World_wf world_two_keys) as Hwf by apply World_wf_reachable.
  assert (gen_step "" (sample_clock 9) (AtConnected 0) (Throw Py.GeneratorExit)
            world_two_keys
          = Some (Finished, Raised Py.GeneratorExit, (unsubscribe "" 0 world_two_keys).2))
    as Hstep by (vm_compute; reflexivity).
  split_and!; [exact Hwf|exact Hstep|].
  apply (proj1 (proj2 (stream_step_frame _ _ _ _ _ _ _ _ Hwf Hstep)) "global" 1).
  - exists [1]. split; [vm_compute; reflexivity|apply list_elem_of_here].
  - discriminate.
Defined.

(** ** Publishing, then polling *)

(** X14: an event published through [publish_notification] for a user, or
    for nobody in particular, is the last event the polling endpoint returns
    to that user, whatever the limit of at least 1 and whether the publish
    completed or is suspended. *)
Theorem published_event_is_polled (t : NotificationType) (d : Py.value)
    (u conv : option string) (iso : string) (ms : Z) (w : World) (r : string)
    (limit : Z) (cu : gmap string Py.value) (c : Clock) :
  (1 ≤ limit)%Z → cu !! "id" = Some (Py.VStr r) → u = Some r ∨ u = None →
  ∃ evs,
    get_recent_notifications limit cu c (publish_notification t d u conv iso ms w).2
    = (Returns
         (Py.VDict
            [("events",
              Py.VList (map to_dict (evs ++ [NotificationEvent_init t d u conv iso ms])));
             ("count", Py.VInt (Z.of_nat (length evs) + 1));
             ("timestamp", Py.VStr (utc_iso c))]),
       (publish_notification t d u conv iso ms w).2).
Proof.
  intros Hlim Hid Hu.
  destruct (get_recent_notifications_ok limit cu c
              (publish_notification t d u conv iso ms w).2 _ Hid)
    as (evs & Heq & _ & _ & Hrecent).
  specialize (Hrecent r eq_refl Hlim).
  unfold publish_notification in Hrecent.
  rewrite publish_event_log, log_after_eq in Hrecent.
  rewrite last_n_snoc_drop in Hrecent by lia. unfold RecentFor in Hrecent.
  rewrite filter_app, filter_cons, decide_True, filter_nil in Hrecent
    by (unfold for_recipient; simpl; destruct Hu as [->| ->]; eauto).
  rewrite last_n_snoc_drop in Hrecent by lia.
  eexists. by rewrite Heq, Hrecent, length_app, Nat2Z.inj_add.
Qed.

Lemma published_event_is_polled_witness :
  (1 ≤ 50)%Z ∧ sample_user !! "id" = Some (Py.VStr "u1")
  ∧ ∃ evs,
      get_recent_notifications 50 sample_user (sample_clock 0)
        (publish_notification SYSTEM_NOTIFICATION (Py.VStr "maintenance") None None
           "2024-05-01T12:00:00" 8 world_u1).2
      = (Returns
           (Py.VDict
              [("events",
                Py.VList
                  (map to_dict
                     (evs ++ [NotificationEvent_init SYSTEM_NOTIFICATION
                                (Py.VStr "maintenance") None None
                                "2024-05-01T12:00:00" 8])));
               ("count", Py.VInt (Z.of_nat (length evs) + 1));
               ("timestamp", Py.VStr (utc_iso (sample_clock 0)))]),
         (publish_notification SYSTEM_NOTIFICATION (Py.VStr "maintenance") None None
            "2024-05-01T12:00:00" 8 world_u1).2).
Proof.
  assert (sample_user !! "id" = Some (Py.VStr "u1")) as Hid by (vm_compute; reflexivity).
  split_and!; [lia|exact Hid|].
  apply (published_event_is_polled SYSTEM_NOTIFICATION (Py.VStr "maintenance") None None
           "2024-05-01T12:00:00" 8 world_u1 "u1" 50 sample_user (sample_clock 0));
    [lia|exact Hid|right; reflexivity].
Defined.
